(** * server.py: script detection, transliteration fallback, chunked speech
      synthesis and byte-range serving

    A shallow embedding of [server.py].  Python [str] values that are
    inspected character by character are lists of code points ([list Z]);
    identifiers (script names, scheme names, language codes), file paths and
    HTTP header values are [string]; file contents are [list byte]; the audio
    folder is a finite map from paths to contents. *)

From Stdlib Require Import ZArith Lia Ascii String.
From stdpp Require Import base strings list gmap fin_maps pretty.

Local Open Scope Z_scope.

Abbreviation text := (list Z).

(** ** CPython character classes *)

(** [str.isspace] on one character, which is also what [str.strip()] trims
    and what [\s] matches in a [str] pattern. *)
Definition isspace (cp : Z) : bool :=
  ((0x09 <=? cp) && (cp <=? 0x0D)) || ((0x1C <=? cp) && (cp <=? 0x20))
  || (cp =? 0x85) || (cp =? 0xA0) || (cp =? 0x1680)
  || ((0x2000 <=? cp) && (cp <=? 0x200A))
  || (cp =? 0x2028) || (cp =? 0x2029) || (cp =? 0x202F) || (cp =? 0x205F)
  || (cp =? 0x3000).

Fixpoint lstrip (t : text) : text :=
  match t with
  | [] => []
  | c :: r => if isspace c then lstrip r else t
  end.

Definition rstrip (t : text) : text := rev (lstrip (rev t)).

Definition strip (t : text) : text := rstrip (lstrip t).

(** Python truthiness of a [str]. *)
Definition truthy {A} (l : list A) : bool :=
  match l with [] => false | _ => true end.

(** ** Script detection *)

Definition SCRIPT_RANGES : list (string * list (Z * Z)) :=
  [ ("devanagari", [(0x0900, 0x097F)]);
    ("bengali",    [(0x0980, 0x09FF)]);
    ("gurmukhi",   [(0x0A00, 0x0A7F)]);
    ("gujarati",   [(0x0A80, 0x0AFF)]);
    ("oriya",      [(0x0B00, 0x0B7F)]);
    ("tamil",      [(0x0B80, 0x0BFF)]);
    ("telugu",     [(0x0C00, 0x0C7F)]);
    ("kannada",    [(0x0C80, 0x0CFF)]);
    ("malayalam",  [(0x0D00, 0x0D7F)]);
    ("latin",      [(0x0000, 0x007F)]) ].

(** The innermost loop: [for start, end in ranges: if start <= cp <= end:
    ...; break]. *)
Fixpoint in_ranges (cp : Z) (ranges : list (Z * Z)) : bool :=
  match ranges with
  | [] => false
  | (start, end_) :: rest =>
      if (start <=? cp) && (cp <=? end_) then true else in_ranges cp rest
  end.

(** [counts[script] += 1] on a dict kept in insertion order. *)
Fixpoint incr (counts : list (string * Z)) (script : string)
  : list (string * Z) :=
  match counts with
  | [] => []
  | (k, v) :: rest =>
      if String.eqb k script then (k, v + 1) :: rest
      else (k, v) :: incr rest script
  end.

Definition scan_char (table : list (string * list (Z * Z)))
    (counts : list (string * Z)) (cp : Z) : list (string * Z) :=
  fold_left
    (fun cs sr => if in_ranges cp (snd sr) then incr cs (fst sr) else cs)
    table counts.

Definition count_scripts (table : list (string * list (Z * Z))) (t : text)
  : list (string * Z) :=
  fold_left (scan_char table) t (map (fun sr => (fst sr, 0)) table).

(** [max(items, key=lambda x: x[1])]: the running best is replaced only by a
    strictly larger key, so the first maximal item is returned. *)
Fixpoint max_from (best : string * Z) (items : list (string * Z))
  : string * Z :=
  match items with
  | [] => best
  | x :: rest => if snd best <? snd x then max_from x rest
                 else max_from best rest
  end.

Definition detect_in (table : list (string * list (Z * Z))) (t : text)
  : string :=
  if negb (truthy t) || negb (truthy (strip t)) then "unknown"
  else
    match count_scripts table t with
    | [] => "unknown" (* max() of an empty dict raises; the table is not empty *)
    | x :: rest =>
        let best := max_from x rest in
        if 0 <? snd best then fst best else "unknown"
    end.

Definition detect_script (t : text) : string := detect_in SCRIPT_RANGES t.

(** The per-script match counter the loop computes, stated directly: the
    number of characters of the text that fall in the script's ranges. *)
Fixpoint hits (ranges : list (Z * Z)) (t : text) : Z :=
  match t with
  | [] => 0
  | cp :: r => (if in_ranges cp ranges then 1 else 0) + hits ranges r
  end.

(** ** Dictionaries of the scheme registry *)

Definition SANSCRIPT_MAP : list (string * string) :=
  [ ("devanagari", "devanagari"); ("bengali", "bengali");
    ("gurmukhi", "gurmukhi"); ("gujarati", "gujarati"); ("oriya", "oriya");
    ("tamil", "tamil"); ("telugu", "telugu"); ("kannada", "kannada");
    ("malayalam", "malayalam"); ("latin", "itrans") ].

Definition TTS_LANG_MAP : list (string * string) :=
  [ ("devanagari", "hi"); ("bengali", "bn"); ("gurmukhi", "pa");
    ("gujarati", "gu"); ("oriya", "or"); ("tamil", "ta"); ("telugu", "te");
    ("kannada", "kn"); ("malayalam", "ml"); ("latin", "en") ].

(** [d.get(k, default)]. *)
Fixpoint dict_get {V} (d : list (string * V)) (k : string) (default : V) : V :=
  match d with
  | [] => default
  | (k', v) :: rest => if String.eqb k' k then v else dict_get rest k default
  end.

(** ** Exceptions and the log of engine calls *)

Inductive outcome (A : Type) : Type :=
  | Ok (a : A)
  | Raise.
Arguments Ok {A} a.
Arguments Raise {A}.

(** One call [transliterate(data, _from, _to)] of the external engine. *)
Definition engine_call : Type := text * string * string.

(** A computation that may raise and that records, in order, every call it
    makes to the engine. *)
Definition M (A : Type) : Type :=
  list engine_call -> outcome A * list engine_call.

Definition ret {A} (a : A) : M A := fun log => (Ok a, log).

Definition bind {A B} (m : M A) (k : A -> M B) : M B :=
  fun log =>
    match m log with
    | (Ok a, log') => k a log'
    | (Raise, log') => (Raise, log')
    end.

(** [try: m  except Exception: handler]. *)
Definition try_except {A} (m handler : M A) : M A :=
  fun log =>
    match m log with
    | (Ok a, log') => (Ok a, log')
    | (Raise, log') => handler log'
    end.

Notation "x <- m ;; k" := (bind m (fun x => k))
  (at level 100, m at next level, right associativity).

(** ** Schwa deletion, transliteration and the request handler *)

Section Handler.

(** [str.isalnum] on one character (CPython's Unicode database); [\w] in a
    [str] pattern is an alphanumeric character or the underscore. *)
Variable isalnum : Z -> bool.

(** The engine [indic_transliteration.sanscript.transliterate]; [None]
    stands for a raised exception. *)
Variable sanscript : text -> string -> string -> option text.

Definition is_word (cp : Z) : bool := isalnum cp || (cp =? 0x5F).

(** [\b] between a character [prev] and the rest of the text. *)
Definition boundary_after (prev : Z) (rest : text) : bool :=
  xorb (is_word prev)
       (match rest with [] => false | d :: _ => is_word d end).

(** [re.sub(r'a\b', '', t)]. *)
Fixpoint sub_a_boundary (t : text) : text :=
  match t with
  | [] => []
  | c :: r =>
      if (c =? 0x61) && boundary_after c r then sub_a_boundary r
      else c :: sub_a_boundary r
  end.

(** [re.sub(r'\s+', ' ', t)]: the space that replaces a run of whitespace
    is emitted at the last character of the run. *)
Fixpoint sub_spaces (t : text) : text :=
  match t with
  | [] => []
  | c :: r =>
      if isspace c then
        match r with
        | d :: _ => if isspace d then sub_spaces r else 0x20 :: sub_spaces r
        | [] => [0x20]
        end
      else c :: sub_spaces r
  end.

Definition schwa_delete_for_devanagari_to_latin (transliterated_text : text)
  : text :=
  if negb (truthy transliterated_text) then transliterated_text
  else strip (sub_spaces (sub_a_boundary transliterated_text)).

Definition transliterate (data : text) (_from _to : string) : M text :=
  fun log =>
    (match sanscript data _from _to with Some r => Ok r | None => Raise end,
     log ++ [(data, _from, _to)]).

(** Lines 277-291 of [transliterate_image]: scheme lookup, the direct call
    and its two fallbacks. *)
Definition convert (extracted : text) (detected_script target_script : string)
  : M text :=
  let from_scheme := dict_get SANSCRIPT_MAP detected_script "iast" in
  let to_scheme := dict_get SANSCRIPT_MAP target_script "itrans" in
  try_except
    (if String.eqb from_scheme to_scheme then ret extracted
     else transliterate extracted from_scheme to_scheme)
    (try_except
       (intermediate <- transliterate extracted from_scheme "iast";;
        transliterate intermediate "iast" to_scheme)
       (ret extracted)).

(** Lines 293-295: the schwa deletion step. *)
Definition postprocess (detected_script target_script : string)
    (transliterated : text) : text :=
  if String.eqb detected_script "devanagari"
     && String.eqb target_script "latin"
  then schwa_delete_for_devanagari_to_latin transliterated
  else transliterated.

(** The JSON body of the 200 answer, with the call
    [generate_tts_audio(tts_text_for_generation, tts_lang)] recorded in
    [tts_request] ([None] when the call is skipped). *)
Record reply : Type := {
  original_text : text;
  transliterated_text : text;
  detected_script : string;
  target_script : string;
  langCode : string;
  tts_request : option (text * string);
  error : string
}.

(** [transliterate_image] from the OCR result on; [target_script] is the
    lower-cased form field. *)
Definition transliterate_image (extracted : text) (target : string)
  : M reply :=
  if negb (truthy extracted) then
    ret {| original_text := []; transliterated_text := [];
           detected_script := "unknown"; target_script := target;
           langCode := EmptyString; tts_request := None;
           error := "No text found in image" |}
  else
    let detected := detect_script extracted in
    converted <- convert extracted detected target;;
    let transliterated := postprocess detected target converted in
    let tts_lang :=
      dict_get TTS_LANG_MAP detected (dict_get TTS_LANG_MAP target "en") in
    let tts_text_for_generation :=
      if negb (String.eqb detected "latin") then extracted
      else transliterated in
    ret {| original_text := extracted;
           transliterated_text := transliterated;
           detected_script := detected; target_script := target;
           langCode := tts_lang;
           tts_request :=
             if truthy (strip tts_text_for_generation)
             then Some (tts_text_for_generation, tts_lang) else None;
           error := EmptyString |}.

End Handler.

(** The positions [re.sub(r'a\b', '', t)] deletes, said with indices: the
    character at [i] is a lowercase "a" and a word boundary follows it. *)
Definition trailing_a (isalnum : Z -> bool) (t : text) (i : nat) : bool :=
  match t !! i with
  | Some c => (c =? 0x61) && boundary_after isalnum c (drop (S i) t)
  | None => false
  end.

(** ASCII letters, digits: [str.isalnum] restricted to ASCII text. *)
Definition ascii_isalnum (cp : Z) : bool :=
  ((0x30 <=? cp) && (cp <=? 0x39)) || ((0x41 <=? cp) && (cp <=? 0x5A))
  || ((0x61 <=? cp) && (cp <=? 0x7A)).

(** ** Chunked speech synthesis *)

(** The character class of the split pattern, as stored in the source file:
    ".", "?", "!" and the three code points U+00E0, U+00A5, U+00A4 (the
    UTF-8 bytes of the danda U+0964 read one byte per character). *)
Definition sentence_end (cp : Z) : bool :=
  (cp =? 0x2E) || (cp =? 0x3F) || (cp =? 0x21)
  || (cp =? 0xE0) || (cp =? 0xA5) || (cp =? 0xA4).

(** [re.split(r'(?<=[...])\s+', t)]: [cur] is the current piece, reversed;
    [in_sep] tells that a separator is being consumed. *)
Fixpoint split_go (cur : text) (in_sep : bool) (rest : text) : list text :=
  match rest with
  | [] => [rev cur]
  | c :: r =>
      if isspace c then
        if in_sep then split_go [] true r
        else if match cur with p :: _ => sentence_end p | [] => false end
             then rev cur :: split_go [] true r
             else split_go (c :: cur) false r
      else split_go (c :: cur) false r
  end.

Definition split_sentences (t : text) : list text := split_go [] false t.

(** The greedy re-bucketing of lines 135-145. *)
Definition rebucket (pieces : list text) : list text :=
  let '(joined, tmp) :=
    fold_left
      (fun '(joined, tmp) p =>
         if 300 <? Z.of_nat (length tmp) + Z.of_nat (length p)
         then (joined ++ [tmp], p)
         else (joined, strip (tmp ++ [0x20] ++ p)))
      pieces ([], []) in
  if truthy tmp then joined ++ [tmp] else joined.

Definition make_pieces (t : text) : list text :=
  let pieces := split_sentences t in
  let pieces := if (length pieces =? 0)%nat then [t] else pieces in
  if (12 <? length pieces)%nat then rebucket pieces else pieces.

(** [f"{out_path}.{i}.mp3"]. *)
Definition tmp_name (out_path : string) (i : nat) : string :=
  out_path +:+ "." +:+ pretty i +:+ ".mp3".

(** [os.remove] of each temporary file, errors ignored. *)
Definition remove_all (files : list string) (fs : gmap string (list Byte.byte))
  : gmap string (list Byte.byte) :=
  fold_left (fun fs tf => delete tf fs) files fs.

(** What [gTTS(text=..., lang=...)] followed by [tts.save(path)] does.
    [save] opens [path] for writing before it asks for the audio, so a call
    that raises may leave a file behind. *)
Inductive synthesis : Type :=
  | Saved (audio : list Byte.byte)
      (* returns; [path] holds the audio *)
  | Failed (debris : option (list Byte.byte)).
      (* raises; [Some d]: [path] was opened and holds [d] (empty when
         nothing was received); [None]: [path] was not opened *)

(** The state of the folder after a call that raised while saving to
    [path]. *)
Definition leave_file (path : string) (debris : option (list Byte.byte))
    (fs : gmap string (list Byte.byte)) : gmap string (list Byte.byte) :=
  match debris with
  | Some d => <[path := d]> fs
  | None => fs
  end.

Section Chunks.

(** The per-chunk calls.  The first argument numbers the calls of one
    attempt, so that the same piece may succeed once and fail another
    time. *)
Variable gtts : nat -> text -> string -> synthesis.

(** The loop of lines 149-166 over [enumerate(pieces)] from index [i] on.
    [None] is the [return False] after cleanup; the cleanup removes the
    names in [temp_files], to which a name is added only once its [save]
    has returned. *)
Fixpoint save_loop (lang out_path : string) (i : nat) (pieces : list text)
    (temp_files : list string) (fs : gmap string (list Byte.byte))
  : option (list string) * gmap string (list Byte.byte) :=
  match pieces with
  | [] => (Some temp_files, fs)
  | piece :: rest =>
      let piece := strip piece in
      if negb (truthy piece) then
        save_loop lang out_path (S i) rest temp_files fs
      else
        let name := tmp_name out_path i in
        match gtts (length temp_files) piece lang with
        | Saved audio =>
            save_loop lang out_path (S i) rest (temp_files ++ [name])
                      (<[name := audio]> fs)
        | Failed debris =>
            (None, remove_all temp_files (leave_file name debris fs))
        end
  end.

(** Lines 169-172: [out_path] has been opened for writing; each temporary
    file is read and appended.  A missing file raises, which the outer
    [except] turns into [return False]. *)
Fixpoint merge_loop (out_path : string) (temp_files : list string)
    (fs : gmap string (list Byte.byte))
  : bool * gmap string (list Byte.byte) :=
  match temp_files with
  | [] => (true, fs)
  | tf :: rest =>
      match fs !! tf with
      | Some data =>
          merge_loop out_path rest
            (<[out_path := default [] (fs !! out_path) ++ data]> fs)
      | None => (false, fs)
      end
  end.

Definition save_pieces (pieces : list text) (lang out_path : string)
    (fs : gmap string (list Byte.byte)) : bool * gmap string (list Byte.byte) :=
  match save_loop lang out_path 0 pieces [] fs with
  | (None, fs1) => (false, fs1)
  | (Some temp_files, fs1) =>
      match merge_loop out_path temp_files (<[out_path := []]> fs1) with
      | (false, fs2) => (false, fs2)
      | (true, fs2) => (true, remove_all temp_files fs2)
      end
  end.

Definition _safe_tts_save_chunks (t : text) (lang out_path : string)
    (fs : gmap string (list Byte.byte)) : bool * gmap string (list Byte.byte) :=
  save_pieces (make_pieces t) lang out_path fs.

(** The synthesis requests of one attempt, in order: the stripped pieces
    that are not empty. *)
Definition chunks_of (pieces : list text) : list text :=
  List.filter truthy (map strip pieces).

(** The audio of every request, when the requests numbered from [k] on all
return; [None] as soon as one of them raises. *)
Fixpoint synth_all (lang : string) (k : nat) (chunks : list text)
  : option (list (list Byte.byte)) :=
  match chunks with
  | [] => Some []
  | c :: rest =>
      match gtts k c lang with
      | Saved audio =>
          audios ← synth_all lang (S k) rest;
          Some (audio :: audios)
      | Failed _ => None
      end
  end.

End Chunks.

(** Writing a list of files, in order. *)
Definition write_all (files : list (string * list Byte.byte))
    (fs : gmap string (list Byte.byte)) : gmap string (list Byte.byte) :=
  fold_left (fun fs na => <[na.1 := na.2]> fs) files fs.

(** The temporary names the loop uses for the non-empty pieces, in order. *)
Fixpoint temp_names (out_path : string) (i : nat) (pieces : list text)
  : list string :=
  match pieces with
  | [] => []
  | piece :: rest =>
      if truthy (strip piece)
      then tmp_name out_path i :: temp_names out_path (S i) rest
      else temp_names out_path (S i) rest
  end.

(** ** Byte-range serving *)

Inductive response : Type :=
  | SendFile (path : string)
      (* [send_file(path, mimetype="audio/mpeg", conditional=True)] *)
  | Response (status : Z) (data : list Byte.byte) (headers : list (string * string)).

Definition is_digit (c : ascii) : bool :=
  (48 <=? nat_of_ascii c)%nat && (nat_of_ascii c <=? 57)%nat.

(** The longest prefix of digits, and what follows it. *)
Fixpoint span_digits (s : string) : string * string :=
  match s with
  | EmptyString => (EmptyString, EmptyString)
  | String c r =>
      if is_digit c then
        let (d, rest) := span_digits r in (String c d, rest)
      else (EmptyString, s)
  end.

Fixpoint strip_prefix (p s : string) : option string :=
  match p, s with
  | EmptyString, _ => Some s
  | String a p', String b s' =>
      if Ascii.eqb a b then strip_prefix p' s' else None
  | String _ _, EmptyString => None
  end.

(** The pattern "bytes=", one or more digits, "-", zero or more digits,
    matched at the start of [s]: the two digit groups. *)
Definition match_range_at (s : string) : option (string * string) :=
  match strip_prefix "bytes=" s with
  | Some r =>
      let (g1, r1) := span_digits r in
      match g1, r1 with
      | String _ _, String "-" r2 => Some (g1, fst (span_digits r2))
      | _, _ => None
      end
  | None => None
  end.

(** [re.search] of that pattern in [s]: the leftmost match. *)
Fixpoint re_search_range (s : string) : option (string * string) :=
  match match_range_at s with
  | Some m => Some m
  | None =>
      match s with
      | EmptyString => None
      | String _ r => re_search_range r
      end
  end.

(** The value of [int(s)] on a string of digits.  Python returns it for a
    string of at most 4300 characters (the default limit of the
    interpreter) and raises [ValueError] on a longer one; the decimal form
    of an offset inside a file is far below that. *)
Fixpoint int_digits (acc : Z) (s : string) : Z :=
  match s with
  | EmptyString => acc
  | String c r => int_digits (10 * acc + (Z.of_nat (nat_of_ascii c) - 48)) r
  end.

Definition int (s : string) : Z := int_digits 0 s.

Definition str_truthy (s : string) : bool :=
  match s with EmptyString => false | _ => true end.

(** [f.read(n)] on a buffered binary file whose unread part is [rest]:
    [-1] reads to the end, a smaller [n] raises [ValueError].  For [n >= 0]
    this is what Python returns as long as a buffer of [n] bytes can be
    allocated, which holds for every length up to the size of a file. *)
Definition file_read (rest : list Byte.byte) (n : Z) : outcome (list Byte.byte) :=
  if n <? -1 then Raise
  else if n =? -1 then Ok rest
  else Ok (take (Z.to_nat n) rest).

(** [send_file_partial(path)], with the audio folder and the [Range] header
    of the request as arguments.  Only the headers the function adds itself
    are listed.  [SendFile path] stands for the call
    [send_file(path, mimetype="audio/mpeg", conditional=True)], which is
    handed the whole request: what the framework then answers (or raises,
    on a [Range] header it cannot use) is not part of this model. *)
Definition send_file_partial (fs : gmap string (list Byte.byte)) (path : string)
    (range_header : option string) : outcome response :=
  match fs !! path with
  | None => Raise (* os.path.getsize *)
  | Some content =>
      let file_size := Z.of_nat (length content) in
      match range_header with
      | None => Ok (SendFile path)
      | Some h =>
          if negb (str_truthy h) then Ok (SendFile path)
          else
            match re_search_range h with
            | None => Ok (SendFile path)
            | Some (g1, g2) =>
                let start := int g1 in
                let end_ := if str_truthy g2 then int g2 else file_size - 1 in
                if file_size <=? start then Ok (Response 416 [] [])
                else
                  let length := end_ - start + 1 in
                  match file_read (drop (Z.to_nat start) content) length with
                  | Raise => Raise
                  | Ok data =>
                      Ok (Response 206 data
                            [ ("Content-Range",
                               "bytes " +:+ pretty start +:+ "-"
                               +:+ pretty end_ +:+ "/" +:+ pretty file_size);
                              ("Accept-Ranges", "bytes");
                              ("Content-Length", pretty length) ])
                  end
            end
      end
  end.

Definition status_of (r : response) : option Z :=
  match r with SendFile _ => None | Response s _ _ => Some s end.

Definition body_of (r : response) : list Byte.byte :=
  match r with SendFile _ => [] | Response _ d _ => d end.

Definition header_of (r : response) (name : string) : option string :=
  match r with
  | SendFile _ => None
  | Response _ _ hs =>
      snd <$> List.find (fun kv => String.eqb (fst kv) name) hs
  end.

(** ** Statements about detection *)

(** [s] is the first script of the table, in enumeration order, whose
    counter is maximal. *)
Definition first_max (table : list (string * list (Z * Z))) (t : text)
    (s : string) : Prop :=
  exists l1 rs l2,
    table = l1 ++ (s, rs) :: l2
    /\ Forall (fun sr => hits (snd sr) t < hits rs t) l1
    /\ Forall (fun sr => hits (snd sr) t <= hits rs t) l2.

(** ** Statements about conversion *)

(** The two-hop fallback through "iast", as a result of the engine alone. *)
Definition two_hop (sanscript : text -> string -> string -> option text)
    (extracted : text) (from_scheme to_scheme : string) : option text :=
  intermediate ← sanscript extracted from_scheme "iast";
  sanscript intermediate "iast" to_scheme.

(** The engine calls of the two-hop fallback: the second hop is only
    reached when the first one returns. *)
Definition two_hop_calls (sanscript : text -> string -> string -> option text)
    (extracted : text) (from_scheme to_scheme : string) : list engine_call :=
  (extracted, from_scheme, "iast")
  :: match sanscript extracted from_scheme "iast" with
     | Some intermediate => [(intermediate, "iast", to_scheme)]
     | None => []
     end.

(** The text with the characters at the positions selected by [p] left
    out. *)
Definition delete_where (p : nat -> bool) (t : text) : text :=
  snd <$> List.filter (fun ic : nat * Z => negb (p ic.1))
                      (zip (seq 0 (length t)) t).

(** An engine for examples: it only knows the conversions from and to
    "iast", which it marks by prefixing an asterisk. *)
Definition hop_only_engine (data : text) (_from _to : string) : option text :=
  if String.eqb _from "iast" || String.eqb _to "iast"
  then Some (0x2A :: data) else None.

(** The text starts with a character that is not whitespace. *)
Definition starts_word (t : text) : bool :=
  match t with [] => false | d :: _ => negb (isspace d) end.

(** A synthesizer for examples: the first two requests of an attempt
    return, every later one raises after its file was opened. *)
Definition two_calls_gtts (n : nat) (piece : text) (lang : string)
  : synthesis :=
  match n with
  | O => Saved [Byte.x49; Byte.x44]
  | S O => Saved [Byte.x33]
  | _ => Failed (Some [])
  end.

Fixpoint all_digits (s : string) : bool :=
  match s with
  | EmptyString => true
  | String c r => is_digit c && all_digits r
  end.

(** The headers [send_file_partial] adds to a 206 answer. *)
Definition range_headers (start end_ file_size : Z)
  : list (string * string) :=
  [ ("Content-Range",
     "bytes " +:+ pretty start +:+ "-" +:+ pretty end_ +:+ "/"
     +:+ pretty file_size);
    ("Accept-Ranges", "bytes");
    ("Content-Length", pretty (end_ - start + 1)) ].

(** ** The rest of the pipeline *)

(** The characters of a text that are not whitespace, in order. *)
Definition nonspace (t : text) : text :=
  List.filter (fun c => negb (isspace c)) t.

Definition AUDIO_FOLDER : string := "audio".


Definition DEFAULT_OCR_LANG : string := "eng+hin+tam+tel+kan+mal+ben+guj+pan".

(** [os.path.join(AUDIO_FOLDER, name)] with the POSIX separator. *)
Definition audio_path (name : string) : string :=
  AUDIO_FOLDER +:+ "/" +:+ name.

Section Audio.

(** The single call [gTTS(text=text, lang=lang_code)] and
    [tts.save(out_path)] over the whole text. *)
Variable gtts_direct : text -> string -> synthesis.

(** The per-chunk calls of the fallback. *)
Variable gtts : nat -> text -> string -> synthesis.

(** [generate_tts_audio(text, lang_code)]; [hex] is [uuid.uuid4().hex].
    The result is the file name, or the empty string on failure. *)
Definition generate_tts_audio (t : text) (lang_code hex : string)
    (fs : gmap string (list Byte.byte))
  : string * gmap string (list Byte.byte) :=
  let filename := "tts_" +:+ hex +:+ ".mp3" in
  let out_path := audio_path filename in
  let fallback (fs0 : gmap string (list Byte.byte)) :=
    let '(ok, fs1) := _safe_tts_save_chunks gtts t lang_code out_path fs0 in
    if ok && bool_decide (is_Some (fs1 !! out_path)) then (filename, fs1)
    else (EmptyString, fs1) in
  match gtts_direct t lang_code with
  | Saved audio =>
      let fs1 := <[out_path := audio]> fs in
      if bool_decide (is_Some (fs1 !! out_path)) then (filename, fs1)
      else fallback fs1
  | Failed debris => fallback (leave_file out_path debris fs)
  end.

End Audio.

(** What the two routes answer: a JSON error with its status, or the
    response of the range server. *)
Inductive audio_answer : Type :=
  | JsonError (status : Z)
  | Served (r : response).

(** [serve_audio(filename)]; [secure_filename] is werkzeug's.  The folder
    holds files only, so [os.path.exists] is a lookup; this covers every
    request whose sanitized name is not empty (an empty one names the
    folder itself). *)
Definition serve_audio (secure_filename : string -> string)
    (fs : gmap string (list Byte.byte)) (filename : string)
    (range_header : option string) : audio_answer :=
  let file_path := audio_path (secure_filename filename) in
  match fs !! file_path with
  | None => JsonError 404
  | Some _ =>
      match send_file_partial fs file_path range_header with
      | Ok r => Served r
      | Raise => JsonError 500
      end
  end.




(** The result of [Image.open(...).convert("RGB")] on the uploaded bytes. *)
Inductive opened (image : Type) : Type :=
  | Opened (img : image)
  | Unidentified  (* raises [UnidentifiedImageError] *)
  | OpenError.    (* raises anything else *)
Arguments Opened {image} img.
Arguments Unidentified {image}.
Arguments OpenError {image}.

Section Ocr.

Variable image : Type.

(** [Image.open(io.BytesIO(file_bytes)).convert("RGB")]. *)
Variable open_bytes : list Byte.byte -> opened image.

(** [Image.open(tmp.name).convert("RGB")] on a file with the given
    content; [None] when it raises. *)
Variable open_file : list Byte.byte -> option image.

(** [pytesseract.image_to_string(image, lang=...)]; [None] when it
    raises. *)
Variable image_to_string : image -> string -> option text.

(** Lines 103-112: the recognition with its fallback to English. *)
Definition ocr_text (img : image) (ocr_lang : string) : text :=
  let t :=
    match image_to_string img ocr_lang with
    | Some t => t
    | None =>
        match image_to_string img "eng" with
        | Some t => t
        | None => []
        end
    end in
  strip t.

(** [perform_ocr_from_bytes(file_bytes, ocr_lang)]; [tmp_name] is the name
    [tempfile.NamedTemporaryFile] picks. *)
Definition perform_ocr_from_bytes (file_bytes : list Byte.byte)
    (ocr_lang : option string) (tmp_name : string)
    (fs : gmap string (list Byte.byte))
  : outcome text * gmap string (list Byte.byte) :=
  let ocr_lang :=
    match ocr_lang with
    | Some l => if str_truthy l then l else DEFAULT_OCR_LANG
    | None => DEFAULT_OCR_LANG
    end in
  match open_bytes file_bytes with
  | Opened img => (Ok (ocr_text img ocr_lang), fs)
  | OpenError => (Raise, fs)
  | Unidentified =>
      let fs1 := <[tmp_name := []]> fs in
      let fs2 := <[tmp_name := file_bytes]> fs1 in
      let img := fs2 !! tmp_name ≫= open_file in
      let fs3 := delete tmp_name fs2 in
      match img with
      | Some img => (Ok (ocr_text img ocr_lang), fs3)
      | None => (Raise, fs3)
      end
  end.

End Ocr.

(** Every whitespace character of the text is a space that is followed by
    the end of the text or by a character that is not whitespace. *)
Fixpoint single_spaced (l : text) : bool :=
  match l with
  | [] => true
  | c :: r =>
      (if isspace c
       then (c =? 0x20) && negb (match r with d :: _ => isspace d | [] => false end)
       else true)
      && single_spaced r
  end.

(** One turn of the loop of [rebucket], on the pair [(joined, tmp)]. *)
Definition rebucket_step (st : list text * text) (p : text)
  : list text * text :=
  let '(joined, tmp) := st in
  if 300 <? Z.of_nat (length tmp) + Z.of_nat (length p)
  then (joined ++ [tmp], p)
  else (joined, strip (tmp ++ [0x20] ++ p)).

(** The piece ends with one of the characters of the split pattern. *)
Definition ends_sentence (p : text) : Prop :=
  exists c, last p = Some c /\ sentence_end c = true.

(** * Properties *)


Example detect_hindi :
  detect_script [0x0928; 0x092E; 0x0938; 0x094D; 0x0924; 0x0947] = "devanagari".
Proof. reflexivity. Qed.

Example range_0_0 :
  send_file_partial {[ "audio/a.mp3" := [Byte.x01; Byte.x02; Byte.x03] ]}
                    "audio/a.mp3" (Some "bytes=0-0")
  = Ok (Response 206 [Byte.x01]
          [("Content-Range", "bytes 0-0/3"); ("Accept-Ranges", "bytes");
           ("Content-Length", "1")]).
Proof. vm_compute. reflexivity. Qed.

Example split_example :
  split_sentences [0x61; 0x2E; 0x20; 0x20; 0x62; 0x20; 0x63; 0x3F; 0x0A]
  = [[0x61; 0x2E]; [0x62; 0x20; 0x63; 0x3F]; []].
Proof. reflexivity. Qed.

Example schwa_example :
  schwa_delete_for_devanagari_to_latin ascii_isalnum
    [0x72; 0x61; 0x6D; 0x61; 0x20; 0x0A; 0x61; 0x61; 0x20; 0x61]
  = [0x72; 0x61; 0x6D; 0x20; 0x61].
Proof. reflexivity. Qed.

(** ** Script detection *)

Section Counting.

Variable table : list (string * list (Z * Z)).
Hypothesis table_keys : NoDup (table.*1).

Lemma incr_no_key cs s : s ∉ cs.*1 -> incr cs s = cs.
Proof.
  induction cs as [|[k v] cs IH]; simpl; intros Hs; [done|].
  apply not_elem_of_cons in Hs as [Hk Hs].
  destruct (String.eqb_spec k s); [congruence|]. by rewrite IH.
Qed.

Lemma incr_fmap cs s :
  NoDup (cs.*1) ->
  incr cs s
  = (fun kv => (kv.1, kv.2 + if String.eqb kv.1 s then 1 else 0)) <$> cs.
Proof.
  induction cs as [|[k v] cs IH]; simpl; intros Hnd; [done|].
  apply NoDup_cons in Hnd as [Hk Hnd].
  destruct (String.eqb_spec k s) as [->|Hne].
  - f_equal. rewrite <- (incr_no_key cs s Hk) at 1.
    by apply IH.
  - rewrite IH by done. f_equal. f_equal. lia.
Qed.

Lemma existsb_no_key (cp : Z) (k : string) (tl : list (string * list (Z * Z))) :
  k ∉ tl.*1 ->
  existsb (fun sr => String.eqb sr.1 k && in_ranges cp sr.2) tl = false.
Proof.
  induction tl as [|[k' rs] tl IH]; simpl; intros Hk; [done|].
  apply not_elem_of_cons in Hk as [Hne Hk].
  destruct (String.eqb_spec k' k); [congruence|]. by apply IH.
Qed.

Lemma existsb_own_key (cp : Z) (l : list (string * list (Z * Z))) sr :
  NoDup (l.*1) -> sr ∈ l ->
  existsb (fun sr' => String.eqb sr'.1 sr.1 && in_ranges cp sr'.2) l
  = in_ranges cp sr.2.
Proof.
  induction l as [|[k rs] l IH]; simpl; intros Hnd Hin.
  - by apply elem_of_nil in Hin.
  - apply NoDup_cons in Hnd as [Hk Hnd].
    apply elem_of_cons in Hin as [->|Hin]; simpl.
    + rewrite String.eqb_refl. simpl.
      rewrite existsb_no_key by done. by rewrite orb_false_r.
    + destruct (String.eqb_spec k sr.1) as [->|Hne]; simpl.
      * exfalso. apply Hk. apply list_elem_of_fmap. by exists sr.
      * by apply IH.
Qed.

Lemma scan_char_fmap (l : list (string * list (Z * Z))) cs cp :
  NoDup (l.*1) -> NoDup (cs.*1) ->
  scan_char l cs cp
  = (fun kv =>
       (kv.1,
        kv.2 + if existsb (fun sr => String.eqb sr.1 kv.1
                                     && in_ranges cp sr.2) l
               then 1 else 0)) <$> cs.
Proof.
  unfold scan_char. revert cs.
  induction l as [|[k rs] l IH]; simpl; intros cs Hl Hcs.
  - rewrite <- (list_fmap_id cs) at 1. apply list_fmap_ext.
    intros _ [k v] _. simpl. f_equal. lia.
  - apply NoDup_cons in Hl as [Hk Hl].
    destruct (in_ranges cp rs) eqn:Hin.
    + rewrite incr_fmap by done. rewrite IH; [|done|].
      * rewrite <- list_fmap_compose. apply list_fmap_ext.
        intros _ [k' v] _. simpl. f_equal.
        rewrite (String.eqb_sym k k').
        destruct (String.eqb_spec k' k) as [->|Hne]; simpl.
        -- rewrite existsb_no_key by done. lia.
        -- lia.
      * rewrite <- list_fmap_compose.
        by replace (fst ∘ _) with (@fst string Z).
    + rewrite IH by done. apply list_fmap_ext. intros _ [k' v] _. simpl.
      by rewrite andb_false_r.
Qed.

Lemma count_loop t (f : string * list (Z * Z) -> Z) :
  fold_left (scan_char table) t ((fun sr => (sr.1, f sr)) <$> table)
  = (fun sr => (sr.1, f sr + hits sr.2 t)) <$> table.
Proof.
  revert f. induction t as [|cp t IH]; simpl; intros f.
  - apply list_fmap_ext. intros _ sr _. simpl. f_equal. lia.
  - assert (scan_char table ((fun sr => (sr.1, f sr)) <$> table) cp
            = (fun sr => (sr.1, f sr + if in_ranges cp sr.2 then 1 else 0))
                <$> table) as ->.
    { rewrite scan_char_fmap; [|done|].
      - rewrite <- list_fmap_compose. apply list_fmap_ext.
        intros i sr Hi. simpl. f_equal.
        rewrite existsb_own_key; [done|done|].
        by apply list_elem_of_lookup_2 in Hi.
      - by rewrite <- list_fmap_compose. }
    rewrite (IH (fun sr => f sr + if in_ranges cp sr.2 then 1 else 0)).
    apply list_fmap_ext. intros _ sr _. simpl. f_equal. lia.
Qed.

(** The dictionary built by the scanning loop holds, for each script of
    the table and in table order, the number of characters in its ranges. *)
Lemma count_scripts_hits t :
  count_scripts table t = (fun sr => (sr.1, hits sr.2 t)) <$> table.
Proof.
  unfold count_scripts.
  change (map ?g table) with (g <$> table).
  rewrite (count_loop t (fun _ => 0)). done.
Qed.

End Counting.

(** [max] returns the first item whose value is maximal. *)
Lemma max_from_first best items :
  exists l1 l2,
    best :: items = l1 ++ max_from best items :: l2
    /\ Forall (fun x => x.2 < (max_from best items).2) l1
    /\ Forall (fun x => x.2 <= (max_from best items).2) l2.
Proof.
  revert best. induction items as [|x rest IH]; intros best; simpl.
  - exists [], []. split; [done|]. split; constructor.
  - destruct (Z.ltb_spec best.2 x.2) as [Hlt|Hge].
    + destruct (IH x) as (l1 & l2 & Heq & H1 & H2).
      remember (max_from x rest) as m eqn:Hm. clear Hm.
      exists (best :: l1), l2. rewrite Heq.
      split; [done|]. split; [|done].
      apply Forall_cons; split; [|done].
      assert (x.2 <= m.2); [|lia].
      destruct l1 as [|y l1]; simpl in Heq; injection Heq as Hx Hrest.
      * rewrite <- Hx. lia.
      * subst y. apply Forall_cons in H1 as [? _]. lia.
    + destruct (IH best) as (l1 & l2 & Heq & H1 & H2).
      remember (max_from best rest) as m eqn:Hm. clear Hm.
      destruct l1 as [|y l1]; simpl in Heq; injection Heq as Hb Hrest.
      * exists [], (x :: l2). rewrite <- Hb, Hrest.
        split; [done|]. split; [constructor|].
        apply Forall_cons. split; [lia|]. by rewrite Hb.
      * subst y. exists (best :: x :: l1), l2. rewrite Hrest.
        split; [done|]. split; [|done].
        apply Forall_cons in H1 as [Hy H1].
        repeat (apply Forall_cons; split); [done|lia|done].
Qed.

Lemma lstrip_spaces (t : text) : forallb isspace t = true -> lstrip t = [].
Proof.
  induction t as [|c t IH]; simpl; [done|].
  intros [Hc Ht]%andb_true_iff. rewrite Hc. by apply IH.
Qed.

Lemma hits_none (rs : list (Z * Z)) (t : text) :
  Forall (fun cp => in_ranges cp rs = false) t -> hits rs t = 0.
Proof.
  induction 1 as [|cp t Hcp _ IH]; simpl; [done|]. rewrite Hcp. lia.
Qed.

Lemma hits_nonneg (rs : list (Z * Z)) (t : text) : 0 <= hits rs t.
Proof. induction t as [|cp t IH]; simpl; [lia|]. destruct in_ranges; lia. Qed.

Lemma SCRIPT_RANGES_keys : NoDup (SCRIPT_RANGES.*1).
Proof. apply (bool_decide_unpack (NoDup _)). by vm_compute. Qed.

(** What [detect_in] returns once the two guards on the text are passed. *)
Lemma detect_in_first_max table (t : text) :
  NoDup (table.*1) -> table <> [] -> strip t <> [] ->
  exists s, first_max table t s
    /\ detect_in table t
       = if existsb (fun sr => 0 <? hits sr.2 t) table then s else "unknown".
Proof.
  intros Hnd Htab Hstrip. unfold detect_in.
  assert (truthy (strip t) = true) as -> by (by destruct (strip t)).
  assert (truthy t = true) as -> by (by destruct t).
  simpl. rewrite count_scripts_hits by done.
  destruct ((fun sr => (sr.1, hits sr.2 t)) <$> table) as [|x rest] eqn:Hc.
  { by destruct table. }
  destruct (max_from_first x rest) as (l1 & l2 & Heq & H1 & H2).
  remember (max_from x rest) as m eqn:Hmax. clear Hmax.
  rewrite <- Hc in Heq. clear Hc.
  apply fmap_app_inv in Heq as (k1 & k2' & -> & Hk2 & Htl).
  symmetry in Hk2. apply fmap_cons_inv in Hk2 as (sr & k2 & Hm & -> & ->).
  exists sr.1. split.
  - exists k1, sr.2, k2. rewrite Htl. destruct sr as [s rs]. simpl.
    rewrite Hm in H1, H2. simpl in *.
    split; [done|]. split.
    + rewrite Forall_fmap in H1. exact H1.
    + rewrite Forall_fmap in H2. exact H2.
  - rewrite Htl, Hm. simpl. rewrite Hm in H1, H2. simpl in *.
    rewrite Forall_fmap in H1. rewrite Forall_fmap in H2.
    destruct (Z.ltb_spec 0 (hits sr.2 t)) as [Hpos|Hzero].
    + rewrite existsb_app. simpl.
      destruct (Z.ltb_spec 0 (hits sr.2 t)); [|lia].
      by rewrite orb_true_r.
    + assert (existsb (fun sr1 => 0 <? hits sr1.2 t) (k1 ++ sr :: k2) = false)
        as ->; [|done].
      apply not_true_is_false. intros (y & Hy & Hpos)%existsb_exists.
      apply Z.ltb_lt in Hpos.
      apply in_app_or in Hy as [Hy|[<-|Hy]]; [|lia|].
      * rewrite Forall_forall in H1.
        specialize (H1 y (proj2 (list_elem_of_In _ _) Hy)). simpl in H1. lia.
      * rewrite Forall_forall in H2.
        specialize (H2 y (proj2 (list_elem_of_In _ _) Hy)). simpl in H2. lia.
Qed.

(** C6 (amended): for a text that is not all whitespace and has at least one
    character inside some script's range, [detect_script] returns the script
    whose counter is highest, and among scripts that tie for the maximum the
    one that comes first in the enumeration order of [SCRIPT_RANGES]. *)
Theorem detect_script_first_max (t : text)
    (Hstrip : strip t <> [])
    (Hpos : exists sr, sr ∈ SCRIPT_RANGES /\ 0 < hits sr.2 t) :
  first_max SCRIPT_RANGES t (detect_script t).
Proof.
  destruct (detect_in_first_max SCRIPT_RANGES t SCRIPT_RANGES_keys)
    as (s & Hs & Hdet); [done|done|].
  unfold detect_script. rewrite Hdet.
  assert (existsb (fun sr => 0 <? hits sr.2 t) SCRIPT_RANGES = true) as ->;
    [|done].
  destruct Hpos as (sr & Hin & Hlt). apply existsb_exists.
  exists sr. split; [by apply list_elem_of_In|by apply Z.ltb_lt].
Qed.

(** A Devanagari letter and a Latin letter tie one to one; the script that
    comes first in the table is returned. *)
Lemma detect_script_first_max_witness :
  first_max SCRIPT_RANGES [0x0905; 0x41] (detect_script [0x0905; 0x41])
  /\ detect_script [0x0905; 0x41] = "devanagari".
Proof.
  split; [|reflexivity].
  apply (detect_script_first_max [0x0905; 0x41]).
  - vm_compute. discriminate.
  - exists ("latin", [(0x0000, 0x007F)]). split.
    + repeat first [apply list_elem_of_here | apply list_elem_of_further].
    + vm_compute. reflexivity.
Defined.

(** C6 as stated fails on the one-character text U+00E9: the text is not
    empty and not all whitespace, every counter is zero, so all scripts tie
    and the first of the table would win; the function returns "unknown",
    which is no script of the table. *)
Lemma detect_script_first_max_counterexample :
  [0xE9] <> [] /\ strip [0xE9] <> []
  /\ detect_script [0xE9] = "unknown"
  /\ ~ first_max SCRIPT_RANGES [0xE9] (detect_script [0xE9]).
Proof.
  split; [done|]. split; [vm_compute; discriminate|]. split; [reflexivity|].
  intros (l1 & rs & l2 & Heq & _).
  assert (detect_script [0xE9] ∈ SCRIPT_RANGES.*1) as Hin.
  { rewrite Heq, fmap_app, fmap_cons. set_solver. }
  change (detect_script [0xE9]) with "unknown" in Hin. simpl in Hin.
  repeat (apply elem_of_cons in Hin as [Hin|Hin]; [discriminate|]).
  by apply elem_of_nil in Hin.
Qed.

(** C8: [detect_script] returns "unknown" for the empty text, for a text of
    whitespace characters only, and for a text none of whose characters lies
    in a range of any script. *)
Theorem detect_script_unknown (t : text)
    (H : t = []
         \/ forallb isspace t = true
         \/ (forall cp sr, cp ∈ t -> sr ∈ SCRIPT_RANGES ->
             in_ranges cp sr.2 = false)) :
  detect_script t = "unknown".
Proof.
  unfold detect_script.
  destruct H as [->|[Hsp|Hout]]; [done| |].
  - unfold detect_in, strip. rewrite lstrip_spaces by done.
    by rewrite orb_true_r.
  - destruct (decide (strip t = [])) as [Hs|Hs].
    + unfold detect_in. rewrite Hs. by rewrite orb_true_r.
    + destruct (detect_in_first_max SCRIPT_RANGES t SCRIPT_RANGES_keys)
        as (s & _ & ->); [done|done|].
      assert (existsb (fun sr => 0 <? hits sr.2 t) SCRIPT_RANGES = false)
        as ->; [|done].
      apply not_true_is_false. intros (sr & Hin & Hpos)%existsb_exists.
      apply Z.ltb_lt in Hpos. rewrite hits_none in Hpos; [lia|].
      apply Forall_forall. intros cp Hcp. apply Hout; [done|].
      by apply list_elem_of_In.
Qed.

Lemma detect_script_unknown_witness :
  detect_script [] = "unknown"
  /\ detect_script [0x20; 0x20; 0x20] = "unknown"
  /\ detect_script [0xE9; 0x4E2D] = "unknown".
Proof.
  split; [|split].
  - apply (detect_script_unknown []). by left.
  - apply (detect_script_unknown [0x20; 0x20; 0x20]). right. left.
    reflexivity.
  - apply (detect_script_unknown [0xE9; 0x4E2D]). right. right.
    intros cp sr Hcp Hsr.
    assert (Forall (fun cp => Forall (fun sr : string * list (Z * Z) =>
              in_ranges cp sr.2 = false) SCRIPT_RANGES) [0xE9; 0x4E2D]) as Hall.
    { repeat (apply Forall_cons; split); try constructor; reflexivity. }
    rewrite Forall_forall in Hall. specialize (Hall cp Hcp).
    rewrite Forall_forall in Hall. by apply Hall.
Defined.

(** Decide every comparison of the goal against the bounds in the context. *)
Ltac bounds :=
  repeat match goal with
    | |- context [Z.leb ?a ?b] => destruct (Z.leb_spec a b); try lia; simpl
    | |- context [Z.eqb ?a ?b] => destruct (Z.eqb_spec a b); try lia; simpl
    end.

Lemma devanagari_not_space cp : 0x0900 <= cp <= 0x097F -> isspace cp = false.
Proof. intros H. unfold isspace. bounds; reflexivity. Qed.

(** C10: in the scanning loop every ASCII character, the space included,
    increments the counter of "latin" and no other counter; hence a text of
    one Devanagari character followed by two ASCII spaces is detected as
    "latin". *)
Theorem ascii_counts_as_latin :
  (forall cs cp, 0 <= cp <= 0x7F ->
     scan_char SCRIPT_RANGES cs cp = incr cs "latin")
  /\ isspace 0x20 = true
  /\ (forall cp, 0x0900 <= cp <= 0x097F ->
        strip [cp; 0x20; 0x20] <> []
        /\ count_scripts SCRIPT_RANGES [cp; 0x20; 0x20]
           = [("devanagari", 1); ("bengali", 0); ("gurmukhi", 0);
              ("gujarati", 0); ("oriya", 0); ("tamil", 0); ("telugu", 0);
              ("kannada", 0); ("malayalam", 0); ("latin", 2)]
        /\ detect_script [cp; 0x20; 0x20] = "latin").
Proof.
  split; [|split; [reflexivity|]].
  - intros cs cp Hcp. unfold scan_char, SCRIPT_RANGES. simpl.
    bounds; reflexivity.
  - intros cp Hcp. pose proof (devanagari_not_space cp Hcp) as Hsp.
    assert (strip [cp; 0x20; 0x20] = [cp]) as Hstrip.
    { unfold strip, rstrip. simpl. rewrite Hsp. simpl. by rewrite Hsp. }
    assert (count_scripts SCRIPT_RANGES [cp; 0x20; 0x20]
            = [("devanagari", 1); ("bengali", 0); ("gurmukhi", 0);
               ("gujarati", 0); ("oriya", 0); ("tamil", 0); ("telugu", 0);
               ("kannada", 0); ("malayalam", 0); ("latin", 2)]) as Hcount.
    { rewrite count_scripts_hits by apply SCRIPT_RANGES_keys.
      unfold SCRIPT_RANGES. simpl. bounds; reflexivity. }
    split; [by rewrite Hstrip|]. split; [done|].
    unfold detect_script, detect_in. rewrite Hstrip, Hcount. reflexivity.
Qed.

Lemma ascii_counts_as_latin_witness :
  scan_char SCRIPT_RANGES (count_scripts SCRIPT_RANGES []) 0x20
  = incr (count_scripts SCRIPT_RANGES []) "latin"
  /\ detect_script [0x0905; 0x20; 0x20] = "latin".
Proof.
  destruct ascii_counts_as_latin as (Hscan & _ & Hdet). split.
  - apply Hscan. lia.
  - apply (Hdet 0x0905). lia.
Defined.

(** ** Transliteration with fallbacks *)

Section Convert.

Variable sanscript : text -> string -> string -> option text.

(** The result of [convert] and the calls it makes, case by case. *)
Lemma convert_cases (extracted : text)
    (detected target : string) (log : list engine_call) :
  let from_scheme := dict_get SANSCRIPT_MAP detected "iast" in
  let to_scheme := dict_get SANSCRIPT_MAP target "itrans" in
  exists out log',
    convert sanscript extracted detected target log = (Ok out, log')
    /\ (forall r, from_scheme <> to_scheme ->
          sanscript extracted from_scheme to_scheme = Some r ->
          out = r /\ log' = log ++ [(extracted, from_scheme, to_scheme)])
    /\ (from_scheme <> to_scheme ->
        sanscript extracted from_scheme to_scheme = None ->
        log' = log ++ (extracted, from_scheme, to_scheme)
                   :: two_hop_calls sanscript extracted from_scheme to_scheme
        /\ (forall r,
              two_hop sanscript extracted from_scheme to_scheme = Some r ->
              out = r)
        /\ (two_hop sanscript extracted from_scheme to_scheme = None ->
            out = extracted)).
Proof.
  intros from_scheme to_scheme.
  unfold convert, try_except, bind, transliterate, ret, two_hop,
    two_hop_calls.
  fold from_scheme to_scheme.
  destruct (String.eqb_spec from_scheme to_scheme) as [Heq|Hne].
  { exists extracted, log. split; [done|]. split; [intros; done|done]. }
  destruct (sanscript extracted from_scheme to_scheme) as [r|] eqn:Hdirect.
  { exists r, (log ++ [(extracted, from_scheme, to_scheme)]).
    split; [done|]. split; [|done].
    intros r' _ [= <-]. done. }
  destruct (sanscript extracted from_scheme "iast") as [mid|] eqn:Hhop1;
    simpl.
  - destruct (sanscript mid "iast" to_scheme) as [r|] eqn:Hhop2.
    + eexists r, _. split; [done|]. split; [done|]. intros _ _. split.
      * by rewrite <- !app_assoc.
      * split; [by intros r' [= <-]|done].
    + eexists extracted, _. split; [done|]. split; [done|].
      intros _ _. split.
      * by rewrite <- !app_assoc.
      * split; [done|done].
  - eexists extracted, _. split; [done|]. split; [done|].
    intros _ _. split.
    * by rewrite <- !app_assoc.
    * split; [done|done].
Qed.

(** C4: [convert] never raises.  It returns the engine's result when the
    direct call returns; when the direct call raises, the two hops through
    "iast" are called next and their result is returned; when one of the
    hops raises as well, the extracted text is returned as it is. *)
Theorem convert_never_raises (extracted : text)
    (detected target : string) (log : list engine_call) :
  let from_scheme := dict_get SANSCRIPT_MAP detected "iast" in
  let to_scheme := dict_get SANSCRIPT_MAP target "itrans" in
  exists out log',
    convert sanscript extracted detected target log = (Ok out, log')
    /\ (forall r, from_scheme <> to_scheme ->
          sanscript extracted from_scheme to_scheme = Some r ->
          out = r /\ log' = log ++ [(extracted, from_scheme, to_scheme)])
    /\ (from_scheme <> to_scheme ->
        sanscript extracted from_scheme to_scheme = None ->
        log' = log ++ (extracted, from_scheme, to_scheme)
                   :: two_hop_calls sanscript extracted from_scheme to_scheme
        /\ (forall r,
              two_hop sanscript extracted from_scheme to_scheme = Some r ->
              out = r)
        /\ (two_hop sanscript extracted from_scheme to_scheme = None ->
            out = extracted)).
Proof. apply convert_cases. Qed.

End Convert.

Lemma convert_never_raises_witness :
  convert hop_only_engine [0x0915] "devanagari" "latin" []
  = (Ok [0x2A; 0x2A; 0x0915],
     [([0x0915], "devanagari", "itrans"); ([0x0915], "devanagari", "iast");
      ([0x2A; 0x0915], "iast", "itrans")]).
Proof.
  destruct (convert_never_raises hop_only_engine [0x0915] "devanagari"
              "latin" []) as (out & log' & Hrun & _ & Hfall).
  destruct Hfall as (Hlog & Hout & _); [discriminate|reflexivity|].
  rewrite Hrun, Hlog, (Hout [0x2A; 0x2A; 0x0915]); reflexivity.
Defined.

(** C5: when the source and the target script resolve to the same scheme,
    [convert] returns the text as it is and leaves the log of engine calls
    unchanged, and the schwa deletion step does not touch it either. *)
Theorem convert_same_scheme (isalnum : Z -> bool)
    (sanscript : text -> string -> string -> option text)
    (x : text) (detected target : string) (log : list engine_call)
    (Hsame : dict_get SANSCRIPT_MAP detected "iast"
             = dict_get SANSCRIPT_MAP target "itrans") :
  convert sanscript x detected target log = (Ok x, log)
  /\ postprocess isalnum detected target x = x.
Proof.
  split.
  - unfold convert, try_except. rewrite Hsame, String.eqb_refl. done.
  - unfold postprocess.
    destruct (String.eqb_spec detected "devanagari") as [->|]; [|done].
    destruct (String.eqb_spec target "latin") as [->|]; [|done].
    discriminate Hsame.
Qed.

Lemma convert_same_scheme_witness :
  convert (fun _ _ _ => None) [0x68; 0x69] "latin" "english" []
  = (Ok [0x68; 0x69], [])
  /\ postprocess ascii_isalnum "latin" "english" [0x68; 0x69] = [0x68; 0x69].
Proof.
  apply (convert_same_scheme ascii_isalnum (fun _ _ _ => None) [0x68; 0x69]
           "latin" "english" []).
  reflexivity.
Defined.

(** ** Schwa deletion *)

Lemma sub_a_boundary_offset isalnum (pre r : text) :
  sub_a_boundary isalnum r
  = snd <$> List.filter
              (fun ic : nat * Z => negb (trailing_a isalnum (pre ++ r) ic.1))
              (zip (seq (length pre) (length r)) r).
Proof.
  revert pre. induction r as [|c r IH]; intros pre; [done|].
  simpl. unfold trailing_a at 1. simpl.
  rewrite list_lookup_middle by done.
  replace (drop (S (length pre)) (pre ++ c :: r)) with r.
  2:{ rewrite (cons_middle c pre r), app_assoc.
      rewrite drop_app_length'; [done|]. rewrite length_app. simpl. lia. }
  specialize (IH (pre ++ [c])).
  rewrite <- app_assoc, length_app in IH. simpl in IH.
  rewrite Nat.add_1_r in IH.
  destruct ((c =? 0x61) && boundary_after isalnum c r); simpl.
  - exact IH.
  - f_equal. exact IH.
Qed.

(** [re.sub(r'a\b', '', t)] leaves out exactly the lowercase "a"s that are
    followed by a word boundary. *)
Lemma sub_a_boundary_delete_where isalnum (t : text) :
  sub_a_boundary isalnum t = delete_where (trailing_a isalnum t) t.
Proof. apply (sub_a_boundary_offset isalnum [] t). Qed.

Lemma sub_spaces_skip (c c' : Z) (u : text) :
  isspace c = true -> isspace c' = true ->
  sub_spaces (c :: c' :: u) = sub_spaces (c' :: u).
Proof.
  intros Hc Hc'.
  change (sub_spaces (c :: c' :: u))
    with (if isspace c
          then if isspace c' then sub_spaces (c' :: u)
               else 0x20 :: sub_spaces (c' :: u)
          else c :: sub_spaces (c' :: u)).
  by rewrite Hc, Hc'.
Qed.

(** A run of whitespace becomes one space. *)
Lemma sub_spaces_run (s r : text) :
  s <> [] -> forallb isspace s = true -> (r = [] \/ starts_word r = true) ->
  sub_spaces (s ++ r) = 0x20 :: sub_spaces r.
Proof.
  induction s as [|c s IH]; [done|]. intros _ [Hc Hs]%andb_true_iff Hr.
  destruct s as [|c' s].
  - simpl. rewrite Hc. destruct r as [|d r]; [done|].
    destruct Hr as [|Hd]; [done|]. simpl in Hd.
    by destruct (isspace d).
  - change ((c :: c' :: s) ++ r) with (c :: c' :: (s ++ r)).
    simpl in Hs. apply andb_true_iff in Hs as [Hc' Hs].
    rewrite sub_spaces_skip by done.
    apply IH; [done| |done]. simpl. rewrite Hc'. exact Hs.
Qed.

(** C7: the schwa deletion step fires exactly for the pair detected script
    "devanagari", target script "latin".  When it fires it removes every
    lowercase "a" that is followed by a word boundary, replaces every run
    of whitespace by one space and trims the ends; for every other pair the
    transliterated text is left as it is. *)
Theorem schwa_deletion_step (isalnum : Z -> bool)
    (detected target : string) (t : text) :
  (detected = "devanagari" /\ target = "latin" ->
     postprocess isalnum detected target t
     = strip (sub_spaces (delete_where (trailing_a isalnum t) t)))
  /\ (~ (detected = "devanagari" /\ target = "latin") ->
        postprocess isalnum detected target t = t)
  /\ (forall s r : text,
        s <> [] -> forallb isspace s = true ->
        (r = [] \/ starts_word r = true) ->
        sub_spaces (s ++ r) = 0x20 :: sub_spaces r)
  /\ (forall (c : Z) (r : text),
        isspace c = false -> sub_spaces (c :: r) = c :: sub_spaces r).
Proof.
  split; [|split; [|split]].
  - intros [-> ->]. unfold postprocess. simpl.
    unfold schwa_delete_for_devanagari_to_latin.
    rewrite <- sub_a_boundary_delete_where. by destruct t.
  - intros Hno. unfold postprocess.
    destruct (String.eqb_spec detected "devanagari") as [->|]; [|done].
    destruct (String.eqb_spec target "latin") as [->|]; [|done].
    by destruct Hno.
  - apply sub_spaces_run.
  - intros c r Hc. simpl. by rewrite Hc.
Qed.

(** "rama  sita" becomes "ram sit" when romanizing Devanagari and is kept
    when romanizing Tamil. *)
Lemma schwa_deletion_step_witness :
  postprocess ascii_isalnum "devanagari" "latin"
    [0x72; 0x61; 0x6D; 0x61; 0x20; 0x20; 0x73; 0x69; 0x74; 0x61]
  = [0x72; 0x61; 0x6D; 0x20; 0x73; 0x69; 0x74]
  /\ postprocess ascii_isalnum "tamil" "latin"
       [0x72; 0x61; 0x6D; 0x61; 0x20; 0x20; 0x73; 0x69; 0x74; 0x61]
     = [0x72; 0x61; 0x6D; 0x61; 0x20; 0x20; 0x73; 0x69; 0x74; 0x61]
  /\ sub_spaces ([0x20; 0x0A] ++ [0x62]) = 0x20 :: sub_spaces [0x62].
Proof.
  split; [|split].
  - rewrite (proj1 (schwa_deletion_step ascii_isalnum "devanagari" "latin" _));
      [reflexivity|done].
  - apply (schwa_deletion_step ascii_isalnum "tamil" "latin").
    intros [? _]. discriminate.
  - apply (schwa_deletion_step ascii_isalnum "tamil" "latin" []);
      [done|reflexivity|by right].
Defined.

(** ** The text handed to speech synthesis *)

(** C9: the handler always answers.  For a text that is not empty, the
    transliterated text of the answer is the post-processed result of
    [convert], and the text handed to the synthesizer is the OCR text if the
    detected script is not "latin" and that transliterated text if it is;
    the synthesizer is called exactly when the chosen text is not all
    whitespace.  The choice is made on the detected script alone, which does
    not depend on the target script. *)
Theorem tts_text_choice (isalnum : Z -> bool)
    (sanscript : text -> string -> string -> option text)
    (extracted : text) (target : string) (log : list engine_call) :
  exists r log',
    transliterate_image isalnum sanscript extracted target log = (Ok r, log')
    /\ (forall txt lang, tts_request r = Some (txt, lang) ->
          original_text r = extracted
          /\ detected_script r = detect_script extracted
          /\ (detect_script extracted <> "latin" -> txt = extracted)
          /\ (detect_script extracted = "latin" -> txt = transliterated_text r))
    /\ (extracted <> [] ->
        exists out,
          convert sanscript extracted (detect_script extracted) target log
          = (Ok out, log')
          /\ transliterated_text r
             = postprocess isalnum (detect_script extracted) target out
          /\ tts_request r
             = (let spoken :=
                  if String.eqb (detect_script extracted) "latin"
                  then transliterated_text r else extracted in
                if truthy (strip spoken) then Some (spoken, langCode r)
                else None))
    /\ (extracted = [] -> tts_request r = None).
Proof.
  unfold transliterate_image.
  destruct (decide (extracted = [])) as [->|Hne].
  { eexists _, _. split; [reflexivity|]. cbn.
    split; [discriminate|]. split; [done|done]. }
  assert (truthy extracted = true) as Htr by (by destruct extracted).
  rewrite Htr. change (negb true) with false. cbv iota.
  destruct (convert_cases sanscript extracted (detect_script extracted)
              target log) as (out & log' & Hrun & _).
  unfold bind. rewrite Hrun. unfold ret.
  eexists _, log'. split; [reflexivity|].
  cbn [tts_request original_text detected_script transliterated_text
       langCode].
  split; [|split; [|done]].
  - intros txt lang Hreq. split; [done|]. split; [done|].
    destruct (String.eqb_spec (detect_script extracted) "latin")
      as [Hlat|Hnot]; cbn [negb] in Hreq; cbv iota in Hreq.
    + destruct (truthy _) in Hreq; [|discriminate].
      injection Hreq as <- _. split; [intros; contradiction|done].
    + destruct (truthy _) in Hreq; [|discriminate].
      injection Hreq as <- _. split; [done|intros; contradiction].
  - intros _. exists out. split; [done|]. split; [done|].
    by destruct (String.eqb (detect_script extracted) "latin").
Qed.

(** The Devanagari letter KA with target "latin": the engine's output is
    "*ka", schwa deletion turns it into "*k", and the text spoken is the
    Devanagari original with language "hi".  The Latin text "hi" with target
    "devanagari": the text spoken is the engine's output, with language
    "en". *)
Lemma tts_text_choice_witness :
  (exists r log',
     transliterate_image ascii_isalnum
       (fun _ _ _ => Some [0x2A; 0x6B; 0x61]) [0x0915] "latin" []
     = (Ok r, log')
     /\ tts_request r = Some ([0x0915], "hi")
     /\ original_text r = [0x0915]
     /\ detected_script r = "devanagari")
  /\ (exists r log',
        transliterate_image ascii_isalnum
          (fun _ _ _ => Some [0x0939; 0x093F]) [0x68; 0x69] "devanagari" []
        = (Ok r, log')
        /\ tts_request r = Some ([0x0939; 0x093F], "en")
        /\ transliterated_text r = [0x0939; 0x093F]
        /\ detected_script r = "latin").
Proof.
  split.
  - destruct (tts_text_choice ascii_isalnum
                (fun _ _ _ => Some [0x2A; 0x6B; 0x61]) [0x0915] "latin" [])
      as (r & log' & Hrun & Hsel & _).
    assert (tts_request r = Some ([0x0915], "hi")) as Hreq.
    { injection Hrun as <- _. reflexivity. }
    exists r, log'. split; [exact Hrun|]. split; [exact Hreq|].
    destruct (Hsel _ _ Hreq) as (Horig & Hdet & _). split; [exact Horig|].
    rewrite Hdet. reflexivity.
  - destruct (tts_text_choice ascii_isalnum
                (fun _ _ _ => Some [0x0939; 0x093F]) [0x68; 0x69]
                "devanagari" [])
      as (r & log' & Hrun & Hsel & Hpin & _).
    destruct Hpin as (out & Hconv & Htrans & Hreq); [discriminate|].
    assert (out = [0x0939; 0x093F]) as ->.
    { vm_compute in Hconv. by injection Hconv as <- _. }
    assert (transliterated_text r = [0x0939; 0x093F]) as Htr.
    { rewrite Htrans. reflexivity. }
    assert (langCode r = "en") as Hlang.
    { injection Hrun as <- _. reflexivity. }
    rewrite Htr, Hlang in Hreq.
    exists r, log'. split; [exact Hrun|]. split; [exact Hreq|].
    split; [exact Htr|].
    destruct (Hsel _ _ Hreq) as (_ & Hdet & _). rewrite Hdet. reflexivity.
Defined.

(** ** Chunked synthesis *)

Lemma string_app_cons (a : ascii) (s t : string) :
  String a s +:+ t = String a (s +:+ t).
Proof. reflexivity. Qed.

Lemma string_app_length (s t : string) :
  String.length (s +:+ t) = (String.length s + String.length t)%nat.
Proof.
  induction s as [|a s IH]; [done|].
  rewrite string_app_cons. simpl. by rewrite IH.
Qed.

Lemma string_app_inv_tail (s1 s2 t : string) :
  s1 +:+ t = s2 +:+ t -> s1 = s2.
Proof.
  revert s2. induction s1 as [|a s1 IH]; intros [|b s2] H; [done| | |].
  - apply (f_equal String.length) in H.
    rewrite !string_app_length in H. simpl in H. lia.
  - apply (f_equal String.length) in H.
    rewrite !string_app_length in H. simpl in H. lia.
  - rewrite !string_app_cons in H. injection H as -> H.
    f_equal. by apply IH.
Qed.

Lemma tmp_name_inj (out_path : string) (i j : nat) :
  tmp_name out_path i = tmp_name out_path j -> i = j.
Proof.
  unfold tmp_name. intros H.
  apply (inj (String.app out_path)) in H.
  apply (inj (String.app ".")) in H.
  apply string_app_inv_tail in H. by apply (inj pretty) in H.
Qed.

Lemma tmp_name_not_out (out_path : string) (i : nat) :
  tmp_name out_path i <> out_path.
Proof.
  unfold tmp_name. intros H. apply (f_equal String.length) in H.
  rewrite !string_app_length in H. simpl in H. lia.
Qed.

Lemma temp_names_from (out_path : string) (i : nat) (pieces : list text)
    (name : string) :
  name ∈ temp_names out_path i pieces ->
  exists j, (i <= j)%nat /\ name = tmp_name out_path j.
Proof.
  revert i. induction pieces as [|p pieces IH]; intros i; simpl.
  - intros H. by apply elem_of_nil in H.
  - destruct (truthy (strip p)).
    + intros [->|H]%elem_of_cons; [by exists i|].
      destruct (IH _ H) as (j & Hj & ->). exists j. split; [lia|done].
    + intros H. destruct (IH _ H) as (j & Hj & ->).
      exists j. split; [lia|done].
Qed.

Lemma temp_names_NoDup (out_path : string) (i : nat) (pieces : list text) :
  NoDup (temp_names out_path i pieces).
Proof.
  revert i. induction pieces as [|p pieces IH]; intros i; simpl.
  - constructor.
  - destruct (truthy (strip p)); [|apply IH].
    constructor; [|apply IH].
    intros (j & Hj & Heq)%temp_names_from.
    apply tmp_name_inj in Heq. lia.
Qed.

Lemma temp_names_not_out (out_path : string) (i : nat) (pieces : list text) :
  out_path ∉ temp_names out_path i pieces.
Proof.
  intros (j & _ & Heq)%temp_names_from.
  by apply (tmp_name_not_out out_path j).
Qed.

Lemma temp_names_length (out_path : string) (i : nat) (pieces : list text) :
  length (temp_names out_path i pieces) = length (chunks_of pieces).
Proof.
  revert i. induction pieces as [|p pieces IH]; intros i; [done|].
  unfold chunks_of. simpl. destruct (truthy (strip p)); simpl.
  - f_equal. apply IH.
  - apply IH.
Qed.

Lemma lookup_remove_all (l : list string) (fs : gmap string (list Byte.byte))
    (p : string) :
  remove_all l fs !! p = if bool_decide (p ∈ l) then None else fs !! p.
Proof.
  revert fs. induction l as [|x l IH]; intros fs; simpl.
  - done.
  - rewrite IH. destruct (decide (p ∈ l)) as [Hin|Hout].
    + rewrite !bool_decide_eq_true_2; [done| |done]. by right.
    + rewrite (bool_decide_eq_false_2 (p ∈ l)) by done.
      destruct (decide (p = x)) as [->|Hne].
      * rewrite bool_decide_eq_true_2 by left. apply lookup_delete_eq.
      * rewrite bool_decide_eq_false_2.
        -- by apply lookup_delete_ne.
        -- intros [?|?]%elem_of_cons; done.
Qed.

Lemma remove_all_insert (l : list string) (fs : gmap string (list Byte.byte))
    (name : string) (a : list Byte.byte) :
  name ∈ l -> remove_all l (<[name := a]> fs) = remove_all l fs.
Proof.
  intros Hin. apply map_eq. intros p. rewrite !lookup_remove_all.
  case_bool_decide as Hp; [done|].
  apply lookup_insert_ne. intros ->. done.
Qed.

Lemma lookup_write_all_ne (names : list string) (audios : list (list Byte.byte))
    (fs : gmap string (list Byte.byte)) (p : string) :
  p ∉ names -> write_all (zip names audios) fs !! p = fs !! p.
Proof.
  revert audios fs. induction names as [|n names IH]; intros audios fs Hp;
    [done|].
  apply not_elem_of_cons in Hp as [Hne Hp].
  destruct audios as [|a audios]; [done|]. simpl.
  rewrite IH by done. by apply lookup_insert_ne.
Qed.

Lemma lookup_write_all (names : list string) (audios : list (list Byte.byte))
    (fs : gmap string (list Byte.byte)) :
  NoDup names -> length names = length audios ->
  Forall2 (fun name a => write_all (zip names audios) fs !! name = Some a)
          names audios.
Proof.
  revert audios fs.
  induction names as [|n names IH]; intros [|a audios] fs Hnd Hlen;
    simplify_eq/=; [constructor|].
  apply NoDup_cons in Hnd as [Hn Hnd]. constructor.
  - rewrite lookup_write_all_ne by done. apply lookup_insert_eq.
  - apply IH; [done|lia].
Qed.

Section ChunkProofs.

Variable gtts : nat -> text -> string -> synthesis.

Lemma synth_all_length lang k chunks audios :
  synth_all gtts lang k chunks = Some audios ->
  length audios = length chunks.
Proof.
  revert k audios. induction chunks as [|c chunks IH]; intros k audios; simpl.
  - by intros [= <-].
  - destruct (gtts k c lang) as [a|debris]; [|done].
    destruct (synth_all gtts lang (S k) chunks) as [l|] eqn:Hrest; [|done].
    simpl. intros [= <-]. simpl. f_equal. by eapply IH.
Qed.

(** The saving loop when every request returns: one temporary file per
    non-empty piece, written in order. *)
Lemma save_loop_ok lang out_path pieces :
  forall i temp_files fs audios,
    synth_all gtts lang (length temp_files) (chunks_of pieces) = Some audios ->
    save_loop gtts lang out_path i pieces temp_files fs
    = (Some (temp_files ++ temp_names out_path i pieces),
       write_all (zip (temp_names out_path i pieces) audios) fs).
Proof.
  induction pieces as [|p pieces IH]; intros i temp_files fs audios Hall.
  - simpl. by rewrite app_nil_r.
  - unfold chunks_of in Hall. simpl in *.
    destruct (strip p) as [|c0 sp] eqn:Hp; simpl in *.
    + by apply IH.
    + destruct (gtts (length temp_files) (c0 :: sp) lang) as [a|debris];
        [|done].
      destruct (synth_all gtts lang (S (length temp_files)) _)
        as [l|] eqn:Hrest; [|done].
      simpl in Hall. injection Hall as <-.
      rewrite (IH (S i) (temp_files ++ [tmp_name out_path i]) _ l).
      * simpl. by rewrite <- app_assoc.
      * rewrite length_app. simpl. rewrite Nat.add_1_r. exact Hrest.
Qed.

Lemma lookup_leave_file (name : string) (debris : option (list Byte.byte))
    (fs : gmap string (list Byte.byte)) (p : string) :
  leave_file name debris fs !! p
  = match debris with
    | Some d => if decide (name = p) then Some d else fs !! p
    | None => fs !! p
    end.
Proof. destruct debris; simpl; [apply lookup_insert|done]. Qed.

Lemma remove_all_leave_insert (l : list string)
    (fs : gmap string (list Byte.byte)) (name x : string)
    (debris : option (list Byte.byte)) (a : list Byte.byte) :
  x ∈ l ->
  remove_all l (leave_file name debris (<[x := a]> fs))
  = remove_all l (leave_file name debris fs).
Proof.
  intros Hin. apply map_eq. intros p. rewrite !lookup_remove_all.
  case_bool_decide as Hp; [done|].
  rewrite !lookup_leave_file.
  assert (<[x := a]> fs !! p = fs !! p) as ->; [|done].
  apply lookup_insert_ne. by intros ->.
Qed.

(** The saving loop when request [n] is the first to raise: the [n] files
    written so far are removed again, but not what the raising call left
    in its own file, whose name is not yet in [temp_files]. *)
Lemma save_loop_fail lang out_path pieces :
  forall i temp_files fs n c debris,
    chunks_of pieces !! n = Some c ->
    gtts (length temp_files + n)%nat c lang = Failed debris ->
    (forall j c', (j < n)%nat -> chunks_of pieces !! j = Some c' ->
                  exists a, gtts (length temp_files + j)%nat c' lang
                            = Saved a) ->
    exists name,
      temp_names out_path i pieces !! n = Some name
      /\ save_loop gtts lang out_path i pieces temp_files fs
         = (None,
            remove_all (temp_files ++ take n (temp_names out_path i pieces))
              (leave_file name debris fs)).
Proof.
  induction pieces as [|p pieces IH];
    intros i temp_files fs n c debris Hc Hfail Hprev; [done|].
  unfold chunks_of in Hc, Hprev. simpl in *.
  destruct (strip p) as [|c0 sp] eqn:Hp; simpl in *.
  - by eapply IH.
  - destruct n as [|n]; simpl in *.
    + injection Hc as <-. rewrite Nat.add_0_r in Hfail. rewrite Hfail.
      exists (tmp_name out_path i). split; [done|]. by rewrite app_nil_r.
    + destruct (Hprev 0%nat (c0 :: sp)) as [a Ha]; [lia|done|].
      rewrite Nat.add_0_r in Ha. rewrite Ha.
      destruct (IH (S i) (temp_files ++ [tmp_name out_path i])
                  (<[tmp_name out_path i := a]> fs) n c debris Hc)
        as (name & Hname & Hrun).
      * rewrite length_app. simpl.
        by replace (length temp_files + 1 + n)%nat
          with (length temp_files + S n)%nat by lia.
      * intros j c' Hj Hc'. rewrite length_app. simpl.
        replace (length temp_files + 1 + j)%nat
          with (length temp_files + S j)%nat by lia.
        apply Hprev; [lia|done].
      * exists name. split; [done|]. rewrite Hrun.
        rewrite <- app_assoc. simpl. f_equal. apply remove_all_leave_insert.
        apply elem_of_app. right. left.
Qed.

(** Some request raising means that there is a first one that does. *)
Lemma first_failure (lang : string) (chunks : list text) :
  forall k n c debris,
    chunks !! n = Some c -> gtts (k + n)%nat c lang = Failed debris ->
    exists m c' debris',
      (m <= n)%nat /\ chunks !! m = Some c'
      /\ gtts (k + m)%nat c' lang = Failed debris'
      /\ forall j c'', (j < m)%nat -> chunks !! j = Some c'' ->
                       exists a, gtts (k + j)%nat c'' lang = Saved a.
Proof.
  induction chunks as [|c0 chunks IH]; intros k n c debris Hc Hfail; [done|].
  destruct (gtts k c0 lang) as [a|d0] eqn:H0.
  - destruct n as [|n]; simpl in Hc.
    { injection Hc as <-. rewrite Nat.add_0_r in Hfail. congruence. }
    destruct (IH (S k) n c debris Hc) as (m & c' & d' & Hm & Hc' & Hf & Hprev).
    { by replace (S k + n)%nat with (k + S n)%nat by lia. }
    exists (S m), c', d'. split; [lia|]. split; [done|]. split.
    { by replace (k + S m)%nat with (S k + m)%nat by lia. }
    intros [|j] c'' Hj Hc''; simpl in Hc''.
    + injection Hc'' as <-. rewrite Nat.add_0_r. by exists a.
    + replace (k + S j)%nat with (S k + j)%nat by lia.
      apply Hprev; [lia|done].
  - exists 0%nat, c0, d0. split; [lia|]. split; [done|]. split.
    { by rewrite Nat.add_0_r. }
    intros j c'' Hj. lia.
Qed.

Lemma Forall2_insert_other (names : list string)
    (audios : list (list Byte.byte)) (fs : gmap string (list Byte.byte))
    (p : string) (v : list Byte.byte) :
  p ∉ names ->
  Forall2 (fun name a => fs !! name = Some a) names audios ->
  Forall2 (fun name a => <[p := v]> fs !! name = Some a) names audios.
Proof.
  intros Hp Hall. induction Hall as [|name a names audios Ha _ IH].
  - constructor.
  - apply not_elem_of_cons in Hp as [Hne Hp]. constructor.
    + by rewrite lookup_insert_ne.
    + by apply IH.
Qed.

(** The merging loop when every temporary file is there: the output file
    receives their contents, in order, after what it already holds. *)
Lemma merge_loop_ok out_path names :
  forall audios fs acc,
    out_path ∉ names -> fs !! out_path = Some acc ->
    Forall2 (fun name a => fs !! name = Some a) names audios ->
    merge_loop out_path names fs
    = (true, <[out_path := acc ++ concat audios]> fs).
Proof.
  induction names as [|n names IH]; intros audios fs acc Hout Hacc Hall.
  - apply Forall2_nil_inv_l in Hall as ->. simpl.
    rewrite app_nil_r. by rewrite insert_id.
  - apply Forall2_cons_inv_l in Hall as (a & audios' & Ha & Hall & ->).
    apply not_elem_of_cons in Hout as [Hne Hout].
    simpl. rewrite Ha, Hacc. simpl.
    rewrite (IH audios' _ (acc ++ a)); [| done | apply lookup_insert_eq |].
    + by rewrite insert_insert_eq, <- app_assoc.
    + by apply Forall2_insert_other.
Qed.

(** C2: when every per-chunk request returns, each temporary file holds
    the audio of its chunk, the function answers [True], the final file holds
    the audios concatenated in chunk order (its length is the sum of theirs),
    every temporary file is gone afterwards and no other file is touched. *)
Theorem chunks_merged_in_order (t : text) (lang out_path : string)
    (fs : gmap string (list Byte.byte)) (audios : list (list Byte.byte))
    (Hall : synth_all gtts lang 0 (chunks_of (make_pieces t)) = Some audios) :
  let names := temp_names out_path 0 (make_pieces t) in
  exists fs1 fs',
    save_loop gtts lang out_path 0 (make_pieces t) [] fs = (Some names, fs1)
    /\ Forall2 (fun name a => fs1 !! name = Some a) names audios
    /\ _safe_tts_save_chunks gtts t lang out_path fs = (true, fs')
    /\ fs' !! out_path = Some (concat audios)
    /\ length (concat audios) = list_sum (length <$> audios)
    /\ (forall name, name ∈ names -> fs' !! name = None)
    /\ (forall p, p <> out_path -> p ∉ names -> fs' !! p = fs !! p).
Proof.
  intros names. set (pieces := make_pieces t) in *.
  pose proof (save_loop_ok lang out_path pieces 0 [] fs audios Hall) as Hsave.
  simpl in Hsave. fold names in Hsave.
  set (fs1 := write_all (zip names audios) fs) in *.
  assert (Forall2 (fun name a => fs1 !! name = Some a) names audios) as Hfiles.
  { apply lookup_write_all; [apply temp_names_NoDup|].
    unfold names. rewrite temp_names_length.
    symmetry. by eapply synth_all_length. }
  assert (out_path ∉ names) as Hout by apply temp_names_not_out.
  pose proof (merge_loop_ok out_path names audios (<[out_path := []]> fs1) []
                Hout (lookup_insert_eq _ _ _)
                (Forall2_insert_other _ _ _ _ _ Hout Hfiles)) as Hmerge.
  rewrite insert_insert_eq in Hmerge. simpl in Hmerge.
  exists fs1, (remove_all names (<[out_path := concat audios]> fs1)).
  split; [exact Hsave|]. split; [exact Hfiles|]. split.
  { unfold _safe_tts_save_chunks, save_pieces. fold pieces.
    rewrite Hsave, Hmerge. done. }
  split.
  { rewrite lookup_remove_all, bool_decide_eq_false_2 by done.
    apply lookup_insert_eq. }
  split.
  { rewrite length_concat. done. }
  split.
  - intros name Hin. by rewrite lookup_remove_all, bool_decide_eq_true_2.
  - intros p Hp Hnot.
    rewrite lookup_remove_all, bool_decide_eq_false_2 by done.
    rewrite lookup_insert_ne by done.
    by apply lookup_write_all_ne.
Qed.

End ChunkProofs.

(** "a. b" is synthesized in two chunks. *)
Lemma chunks_merged_in_order_witness :
  exists fs',
    _safe_tts_save_chunks two_calls_gtts [0x61; 0x2E; 0x20; 0x62] "en"
      "audio/x.mp3" ∅ = (true, fs')
    /\ fs' !! "audio/x.mp3" = Some [Byte.x49; Byte.x44; Byte.x33]
    /\ fs' !! "audio/x.mp3.0.mp3" = None
    /\ fs' !! "audio/x.mp3.1.mp3" = None.
Proof.
  destruct (chunks_merged_in_order two_calls_gtts [0x61; 0x2E; 0x20; 0x62]
              "en" "audio/x.mp3" ∅ [[Byte.x49; Byte.x44]; [Byte.x33]]
              eq_refl)
    as (fs1 & fs' & _ & _ & Hrun & Hout & _ & Hgone & _).
  exists fs'. split; [exact Hrun|]. split; [exact Hout|].
  split; apply Hgone; vm_compute.
  - apply list_elem_of_here.
  - apply list_elem_of_further, list_elem_of_here.
Defined.

(** C3 at a failing input: the text "a. b. c" with a synthesizer whose
    third request raises after its file was opened.  The function answers
    [False] and removes the files of the first two chunks, but the file of
    the third chunk stays in the folder: its name is added to [temp_files]
    only after [save] has returned, so the cleanup does not know it. *)
Theorem chunk_failure_leaves_file :
  _safe_tts_save_chunks two_calls_gtts
    [0x61; 0x2E; 0x20; 0x62; 0x2E; 0x20; 0x63] "en" "audio/x.mp3" ∅
  = (false, {[ "audio/x.mp3.2.mp3" := [] ]})
  /\ temp_names "audio/x.mp3" 0
       (make_pieces [0x61; 0x2E; 0x20; 0x62; 0x2E; 0x20; 0x63])
     = ["audio/x.mp3.0.mp3"; "audio/x.mp3.1.mp3"; "audio/x.mp3.2.mp3"].
Proof. split; vm_compute; reflexivity. Qed.

(** ** Byte-range serving *)

Lemma span_digits_digits (s : string) :
  all_digits (fst (span_digits s)) = true.
Proof.
  induction s as [|c s IH]; [done|]. simpl.
  destruct (is_digit c) eqn:Hc; [|done].
  destruct (span_digits s) as [d rest]. simpl in *. by rewrite Hc, IH.
Qed.

Lemma int_digits_nonneg (s : string) (acc : Z) :
  0 <= acc -> all_digits s = true -> 0 <= int_digits acc s.
Proof.
  revert acc. induction s as [|c s IH]; intros acc Hacc Hs; [done|].
  simpl in *. apply andb_true_iff in Hs as [Hc Hs].
  apply IH; [|done]. unfold is_digit in Hc.
  apply andb_true_iff in Hc as [Hlo _]. apply Nat.leb_le in Hlo. lia.
Qed.

Lemma match_range_at_digits (s g1 g2 : string) :
  match_range_at s = Some (g1, g2) ->
  all_digits g1 = true /\ all_digits g2 = true /\ s <> EmptyString.
Proof.
  unfold match_range_at.
  destruct (strip_prefix "bytes=" s) as [r|] eqn:Hp; [|done].
  pose proof (span_digits_digits r) as H1.
  destruct (span_digits r) as [d1 r1]. simpl in H1.
  destruct d1 as [|c d1]; [done|].
  destruct r1 as [|dash r2]; [done|].
  destruct (Ascii.ascii_dec dash "-") as [->|Hne].
  - intros [= <- <-]. split; [done|]. split; [apply span_digits_digits|].
    intros ->. done.
  - destruct dash as [[] [] [] [] [] [] [] []]; try done.
Qed.

Lemma re_search_range_digits (h g1 g2 : string) :
  re_search_range h = Some (g1, g2) ->
  all_digits g1 = true /\ all_digits g2 = true /\ h <> EmptyString.
Proof.
  induction h as [|c h IH].
  - simpl. destruct (match_range_at EmptyString) as [m|] eqn:Hm; [|done].
    discriminate Hm.
  - cbn [re_search_range].
    destruct (match_range_at (String c h)) as [[a b]|] eqn:Hm.
    + intros [= <- <-]. apply match_range_at_digits in Hm as (? & ? & ?).
      done.
    + intros H. destruct (IH H) as (? & ? & _). done.
Qed.

(** What [send_file_partial] answers to a header that parses.  A start at
    or past the file size gives 416; a range inside the file gives 206 with
    exactly the requested slice; an end past the last offset gives 206 with
    the bytes up to the end of the file, fewer than the announced length. *)
Lemma send_file_partial_parsed (fs : gmap string (list Byte.byte))
    (path h g1 g2 : string) (content : list Byte.byte) :
  fs !! path = Some content ->
  re_search_range h = Some (g1, g2) ->
  let file_size := Z.of_nat (length content) in
  let start := int g1 in
  let end_ := if str_truthy g2 then int g2 else file_size - 1 in
  0 <= start
  /\ (file_size <= start ->
      send_file_partial fs path (Some h) = Ok (Response 416 [] []))
  /\ (start < file_size -> start <= end_ < file_size ->
      let data := take (Z.to_nat (end_ - start + 1))
                       (drop (Z.to_nat start) content) in
      send_file_partial fs path (Some h)
      = Ok (Response 206 data (range_headers start end_ file_size))
      /\ Z.of_nat (length data) = end_ - start + 1)
  /\ (start < file_size -> file_size <= end_ ->
      let data := drop (Z.to_nat start) content in
      send_file_partial fs path (Some h)
      = Ok (Response 206 data (range_headers start end_ file_size))
      /\ Z.of_nat (length data) = file_size - start
      /\ Z.of_nat (length data) < end_ - start + 1).
Proof.
  intros Hfile Hparse file_size start end_.
  destruct (re_search_range_digits h g1 g2 Hparse) as (Hd1 & Hd2 & Hh).
  assert (0 <= start) as Hstart by (by apply int_digits_nonneg).
  assert (str_truthy h = true) as Hh' by (by destruct h).
  unfold send_file_partial. rewrite Hfile, Hh', Hparse. simpl.
  fold file_size start end_.
  split; [done|]. split; [|split].
  - intros Hge. by rewrite (proj2 (Z.leb_le _ _) Hge).
  - intros Hlt Hend. rewrite (proj2 (Z.leb_gt _ _) Hlt).
    unfold file_read.
    rewrite (proj2 (Z.ltb_ge _ _)) by lia.
    rewrite (proj2 (Z.eqb_neq _ _)) by lia.
    split; [done|].
    rewrite length_take, length_drop. unfold file_size in *. lia.
  - intros Hlt Hend. rewrite (proj2 (Z.leb_gt _ _) Hlt).
    unfold file_read.
    rewrite (proj2 (Z.ltb_ge _ _)) by lia.
    rewrite (proj2 (Z.eqb_neq _ _)) by lia.
    rewrite take_ge by (rewrite length_drop; unfold file_size in *; lia).
    split; [done|].
    rewrite length_drop. unfold file_size in *. lia.
Qed.

(** C1 at a failing input: a file of three bytes and the header
    "bytes=0-9".  The answer is 206 and announces the range 0-9 and a
    length of 10, but its body holds the three bytes of the file, not the
    end - start + 1 = 10 bytes the range asks for. *)
Theorem range_end_past_file :
  send_file_partial {[ "audio/a.mp3" := [Byte.x01; Byte.x02; Byte.x03] ]}
                    "audio/a.mp3" (Some "bytes=0-9")
  = Ok (Response 206 [Byte.x01; Byte.x02; Byte.x03]
          [("Content-Range", "bytes 0-9/3"); ("Accept-Ranges", "bytes");
           ("Content-Length", "10")])
  /\ length [Byte.x01; Byte.x02; Byte.x03] <> Z.to_nat (9 - 0 + 1).
Proof. split; [vm_compute; reflexivity|vm_compute; discriminate]. Qed.

(** An end that lies two before the start makes the length -1, which
    [read] takes as "to the end of the file"; an end further back raises. *)
Example range_end_before_start :
  send_file_partial {[ "audio/a.mp3" := [Byte.x01; Byte.x02; Byte.x03] ]}
                    "audio/a.mp3" (Some "bytes=2-0")
  = Ok (Response 206 [Byte.x03]
          [("Content-Range", "bytes 2-0/3"); ("Accept-Ranges", "bytes");
           ("Content-Length", "-1")])
  /\ send_file_partial
       {[ "audio/a.mp3" := [Byte.x01; Byte.x02; Byte.x03; Byte.x04] ]}
       "audio/a.mp3" (Some "bytes=3-0") = Raise.
Proof. split; vm_compute; reflexivity. Qed.

Example range_start_at_size :
  send_file_partial {[ "audio/a.mp3" := [Byte.x01; Byte.x02; Byte.x03] ]}
                    "audio/a.mp3" (Some "bytes=3-")
  = Ok (Response 416 [] []).
Proof. vm_compute. reflexivity. Qed.

(** * Further properties *)

(** ** Stripping *)

Lemma lstrip_app_word (l r : text) (c : Z) :
  isspace c = false -> lstrip (l ++ c :: r) = lstrip l ++ c :: r.
Proof.
  intros Hc. induction l as [|d l IH]; simpl.
  - by rewrite Hc.
  - by destruct (isspace d).
Qed.

Lemma lstrip_all_space (l : text) :
  lstrip l = [] <-> forallb isspace l = true.
Proof.
  induction l as [|d l IH]; simpl; [done|].
  destruct (isspace d); simpl; [done|]. split; discriminate.
Qed.

(** [rstrip] by recursion on the text. *)
Lemma rstrip_cons (c : Z) (u : text) :
  rstrip (c :: u)
  = match rstrip u with
    | [] => if isspace c then [] else [c]
    | r => c :: r
    end.
Proof.
  unfold rstrip. simpl.
  destruct (lstrip (rev u)) as [|d l] eqn:Hl.
  - apply lstrip_all_space in Hl.
    assert (forall l' : text, forallb isspace l' = true ->
              lstrip (l' ++ [c]) = lstrip [c]) as Happ.
    { intros l' Hl'. induction l' as [|e l' IH]; [done|]. simpl in *.
      apply andb_true_iff in Hl' as [-> Hl']. by apply IH. }
    rewrite Happ by done. simpl. by destruct (isspace c).
  - assert (forall l' : text, lstrip l' = d :: l ->
              lstrip (l' ++ [c]) = (d :: l) ++ [c]) as Happ.
    { intros l'. induction l' as [|e l' IH]; [done|]. simpl.
      destruct (isspace e); [done|]. by intros [= -> ->]. }
    rewrite (Happ _ Hl). rewrite rev_app_distr. simpl.
    destruct (rev l ++ [d]) eqn:Hr; [|done]. by destruct (rev l).
Qed.

Lemma nonspace_app (a b : text) : nonspace (a ++ b) = nonspace a ++ nonspace b.
Proof. apply List.filter_app. Qed.

Lemma nonspace_lstrip (t : text) : nonspace (lstrip t) = nonspace t.
Proof.
  induction t as [|c t IH]; [done|]. simpl.
  destruct (isspace c) eqn:Hc; simpl; [done|]. by rewrite Hc.
Qed.

Lemma nonspace_rstrip (t : text) : nonspace (rstrip t) = nonspace t.
Proof.
  induction t as [|c t IH]; [done|]. rewrite rstrip_cons.
  simpl. destruct (rstrip t) as [|d r] eqn:Hr.
  - rewrite <- IH. destruct (isspace c) eqn:Hc; simpl; by rewrite ?Hc.
  - simpl in *. by rewrite IH.
Qed.

Lemma nonspace_strip (t : text) : nonspace (strip t) = nonspace t.
Proof. unfold strip. by rewrite nonspace_rstrip, nonspace_lstrip. Qed.

Lemma nonspace_nil_iff (t : text) :
  nonspace t = [] <-> forallb isspace t = true.
Proof.
  induction t as [|c t IH]; simpl; [done|].
  destruct (isspace c); simpl; [done|]. split; discriminate.
Qed.

Lemma lstrip_head (t : text) (c : Z) :
  head (lstrip t) = Some c -> isspace c = false.
Proof.
  induction t as [|d t IH]; simpl; [done|].
  destruct (isspace d) eqn:Hd; [done|]. simpl. by intros [= <-].
Qed.

Lemma rstrip_head (t : text) (c : Z) :
  head t = Some c -> isspace c = false -> head (rstrip t) = Some c.
Proof.
  destruct t as [|d t]; [done|]. simpl. intros [= ->] Hc.
  rewrite rstrip_cons, Hc. by destruct (rstrip t).
Qed.

Lemma rstrip_last (t : text) (c : Z) :
  last (rstrip t) = Some c -> isspace c = false.
Proof.
  induction t as [|d t IH]; [done|]. rewrite rstrip_cons.
  destruct (rstrip t) as [|e r] eqn:Hr.
  - destruct (isspace d) eqn:Hd; [done|]. simpl. by intros [= <-].
  - intros Hl. apply IH. by rewrite last_cons_cons in Hl.
Qed.

Lemma rstrip_prefix (t : text) : exists ws, t = rstrip t ++ ws.
Proof.
  induction t as [|d t [ws IH]]; [by exists []|]. rewrite rstrip_cons.
  destruct (rstrip t) as [|e r] eqn:Hr.
  - destruct (isspace d).
    + by exists (d :: t).
    + exists t. simpl in *. done.
  - exists ws. simpl. by rewrite IH at 1.
Qed.

Lemma lstrip_suffix (t : text) : exists ws, t = ws ++ lstrip t.
Proof.
  induction t as [|d t [ws IH]]; [by exists []|]. simpl.
  destruct (isspace d).
  - exists (d :: ws). simpl. by rewrite IH at 1.
  - by exists [].
Qed.

Lemma strip_length (t : text) : (length (strip t) <= length t)%nat.
Proof.
  unfold strip.
  destruct (rstrip_prefix (lstrip t)) as [w1 H1].
  destruct (lstrip_suffix t) as [w2 H2].
  rewrite H2 at 2. rewrite H1 at 2. rewrite !length_app. lia.
Qed.

(** A stripped text neither starts nor ends with whitespace, and stripping
    it again changes nothing. *)
Lemma strip_edges (t : text) :
  (forall c, head (strip t) = Some c -> isspace c = false)
  /\ (forall c, last (strip t) = Some c -> isspace c = false).
Proof.
  split; intros c Hc; [|by eapply rstrip_last].
  unfold strip in Hc.
  destruct (lstrip t) as [|d u] eqn:Hl; [done|].
  assert (isspace d = false) as Hd.
  { apply (lstrip_head t). by rewrite Hl. }
  rewrite (rstrip_head (d :: u) d) in Hc by done. by injection Hc as <-.
Qed.

Lemma lstrip_id (t : text) :
  (forall c, head t = Some c -> isspace c = false) -> lstrip t = t.
Proof.
  destruct t as [|c t]; [done|]. intros H. simpl. by rewrite H.
Qed.

Lemma rstrip_id (t : text) :
  (forall c, last t = Some c -> isspace c = false) -> rstrip t = t.
Proof.
  induction t as [|c t IH]; [done|]. intros H. rewrite rstrip_cons.
  destruct t as [|d t].
  - simpl. by rewrite H.
  - rewrite IH; [done|]. intros e He. apply H. by rewrite last_cons_cons.
Qed.

Lemma strip_idem (t : text) : strip (strip t) = strip t.
Proof.
  destruct (strip_edges t) as [Hh Hl].
  unfold strip at 1. rewrite (lstrip_id _ Hh). by apply rstrip_id.
Qed.

Lemma strip_nil_iff (t : text) : strip t = [] <-> forallb isspace t = true.
Proof.
  rewrite <- nonspace_nil_iff. split.
  - intros H. by rewrite <- nonspace_strip, H.
  - intros H. destruct (strip t) as [|c u] eqn:Hs; [done|].
    destruct (strip_edges t) as [Hh _]. rewrite Hs in Hh.
    specialize (Hh c eq_refl).
    rewrite <- nonspace_strip, Hs in H. simpl in H. by rewrite Hh in H.
Qed.

(** ** More on script detection *)

Lemma detect_script_cases (t : text) :
  (detect_script t = "unknown"
   /\ (forallb isspace t = true
       \/ forall sr, sr ∈ SCRIPT_RANGES -> hits sr.2 t = 0))
  \/ (exists rs, (detect_script t, rs) ∈ SCRIPT_RANGES
                 /\ 0 < hits rs t /\ forallb isspace t = false).
Proof.
  destruct (decide (strip t = [])) as [Hs|Hs].
  { left. split.
    - unfold detect_script, detect_in. rewrite Hs. by rewrite orb_true_r.
    - left. by apply strip_nil_iff. }
  destruct (detect_in_first_max SCRIPT_RANGES t SCRIPT_RANGES_keys)
    as (s & (l1 & rs & l2 & Htab & H1 & H2) & Hdet); [done|done|].
  unfold detect_script. rewrite Hdet.
  destruct (existsb _ SCRIPT_RANGES) eqn:Hex.
  - right. exists rs. split; [|split].
    + rewrite Htab. apply elem_of_app. right. left.
    + apply existsb_exists in Hex as (sr & Hin & Hpos).
      apply Z.ltb_lt in Hpos. rewrite Htab in Hin.
      apply in_app_or in Hin as [Hin|[<-|Hin]]; [|done|].
      * rewrite Forall_forall in H1.
        specialize (H1 sr (proj2 (list_elem_of_In _ _) Hin)). lia.
      * rewrite Forall_forall in H2.
        specialize (H2 sr (proj2 (list_elem_of_In _ _) Hin)). lia.
    + apply not_true_iff_false. by rewrite <- strip_nil_iff.
  - left. split; [done|]. right. intros sr Hin.
    pose proof (hits_nonneg sr.2 t).
    destruct (Z.ltb_spec 0 (hits sr.2 t)) as [Hpos|]; [|lia].
    assert (existsb (fun sr => 0 <? hits sr.2 t) SCRIPT_RANGES = true);
      [|congruence].
    apply existsb_exists. exists sr.
    split; [by apply list_elem_of_In|by apply Z.ltb_lt].
Qed.

(** X1: [detect_script] answers "unknown" only for a text that is all
    whitespace (or empty) or has no character in any range; every other
    answer is a script of the table whose counter is positive. *)
Theorem detect_script_result (t : text) :
  (detect_script t = "unknown"
   /\ (forallb isspace t = true
       \/ forall sr, sr ∈ SCRIPT_RANGES -> hits sr.2 t = 0))
  \/ (exists rs, (detect_script t, rs) ∈ SCRIPT_RANGES
                 /\ 0 < hits rs t /\ forallb isspace t = false).
Proof. apply detect_script_cases. Qed.

(** No code point lies in the ranges of two scripts of the table. *)
Lemma SCRIPT_RANGES_disjoint (cp : Z) (sr sr' : string * list (Z * Z)) :
  sr ∈ SCRIPT_RANGES -> sr' ∈ SCRIPT_RANGES -> sr <> sr' ->
  in_ranges cp sr.2 = true -> in_ranges cp sr'.2 = false.
Proof.
  unfold SCRIPT_RANGES. intros Hin Hin' Hne Hcp.
  repeat (apply elem_of_cons in Hin as [->|Hin]);
    try (by apply elem_of_nil in Hin);
    repeat (apply elem_of_cons in Hin' as [->|Hin']);
    try (by apply elem_of_nil in Hin');
    try done;
    simpl in *;
    repeat match type of Hcp with
      | context [Z.leb ?a ?b] =>
          destruct (Z.leb_spec a b); simpl in Hcp; try discriminate Hcp
      end;
    bounds; reflexivity.
Qed.

Lemma hits_all (rs : list (Z * Z)) (t : text) :
  Forall (fun cp => in_ranges cp rs = true) t ->
  hits rs t = Z.of_nat (length t).
Proof.
  induction 1 as [|cp t Hcp _ IH]; [done|]. simpl hits. rewrite Hcp, IH.
  simpl length. lia.
Qed.

(** X2: a text that is not all whitespace and whose characters all lie in
    the ranges of one script of the table is detected as that script. *)
Theorem detect_script_single_script (t : text) (sr : string * list (Z * Z))
    (Hin : sr ∈ SCRIPT_RANGES) (Hstrip : strip t <> [])
    (Hall : Forall (fun cp => in_ranges cp sr.2 = true) t) :
  detect_script t = sr.1.
Proof.
  assert (0 < hits sr.2 t) as Hpos.
  { rewrite hits_all by done. destruct t; [done|]. simpl. lia. }
  assert (forall sr', sr' ∈ SCRIPT_RANGES -> sr' <> sr -> hits sr'.2 t = 0)
    as Hzero.
  { intros sr' Hin' Hne. apply hits_none.
    eapply Forall_impl; [exact Hall|]. intros cp Hcp. simpl in *.
    by apply (SCRIPT_RANGES_disjoint cp sr sr'). }
  destruct (detect_script_cases t) as [[_ [Hsp|Hnone]]|(rs & Hrs & Hrpos & _)].
  - by apply strip_nil_iff in Hsp.
  - rewrite Hnone in Hpos by done. lia.
  - destruct (decide ((detect_script t, rs) = sr)) as [<-|Hne]; [done|].
    pose proof (Hzero _ Hrs Hne) as Hz. simpl in Hz. lia.
Qed.

Lemma detect_script_single_script_witness :
  detect_script [0x0BA4; 0x0BAE; 0x0BBF; 0x0BB4; 0x0BCD] = "tamil".
Proof.
  apply (detect_script_single_script [0x0BA4; 0x0BAE; 0x0BBF; 0x0BB4; 0x0BCD]
           ("tamil", [(0x0B80, 0x0BFF)])).
  - repeat first [apply list_elem_of_here | apply list_elem_of_further].
  - vm_compute. discriminate.
  - repeat (apply Forall_cons; split); try constructor; reflexivity.
Defined.

Lemma hits_perm (rs : list (Z * Z)) (t t' : text) :
  t ≡ₚ t' -> hits rs t = hits rs t'.
Proof.
  induction 1 as [|x l l' _ IH|x y l|l l' l'' _ IH1 _ IH2]; simpl.
  - done.
  - by rewrite IH.
  - lia.
  - congruence.
Qed.

Lemma all_space_perm (t t' : text) :
  t ≡ₚ t' -> forallb isspace t = forallb isspace t'.
Proof.
  induction 1 as [|x l l' _ IH|x y l|l l' l'' _ IH1 _ IH2]; simpl.
  - done.
  - by rewrite IH.
  - by destruct (isspace x), (isspace y).
  - congruence.
Qed.

Lemma truthy_strip (t : text) :
  truthy (strip t) = negb (forallb isspace t).
Proof.
  destruct (forallb isspace t) eqn:Hsp.
  - apply strip_nil_iff in Hsp. by rewrite Hsp.
  - destruct (strip t) eqn:Hs; [|done].
    apply strip_nil_iff in Hs. congruence.
Qed.

(** X3: detection only counts characters: two texts that are permutations of
    each other are detected as the same script. *)
Theorem detect_script_permutation (t t' : text) (Hperm : t ≡ₚ t') :
  detect_script t = detect_script t'.
Proof.
  unfold detect_script, detect_in.
  rewrite !truthy_strip, (all_space_perm t t' Hperm).
  rewrite !count_scripts_hits by apply SCRIPT_RANGES_keys.
  assert (truthy t = truthy t') as ->.
  { destruct t, t'; try done.
    - by apply Permutation_nil_cons in Hperm.
    - symmetry in Hperm. by apply Permutation_nil_cons in Hperm. }
  assert ((fun sr : string * list (Z * Z) => (sr.1, hits sr.2 t))
            <$> SCRIPT_RANGES
          = (fun sr => (sr.1, hits sr.2 t')) <$> SCRIPT_RANGES) as ->; [|done].
  apply list_fmap_ext. intros _ sr _. simpl. by rewrite (hits_perm _ t t').
Qed.

Lemma detect_script_permutation_witness :
  detect_script [0x41; 0x0915; 0x0916] = detect_script [0x0915; 0x41; 0x0916].
Proof.
  apply (detect_script_permutation [0x41; 0x0915; 0x0916]
           [0x0915; 0x41; 0x0916]).
  apply perm_swap.
Defined.

(** ** More on schwa deletion *)

Lemma single_spaced_sub_spaces (u : text) : single_spaced (sub_spaces u) = true.
Proof.
  induction u as [|c u IH]; [done|].
  cbn [sub_spaces]. destruct (isspace c) eqn:Hc.
  - destruct u as [|d u]; [done|].
    destruct (isspace d) eqn:Hd; [done|].
    cbn [single_spaced]. rewrite IH.
    cbn [sub_spaces]. rewrite Hd. by rewrite Hd.
  - cbn [single_spaced]. by rewrite Hc, IH.
Qed.

Lemma single_spaced_suffix (a b : text) :
  single_spaced (a ++ b) = true -> single_spaced b = true.
Proof.
  induction a as [|c a IH]; [done|]. simpl.
  intros [_ H]%andb_true_iff. by apply IH.
Qed.

Lemma single_spaced_prefix (a b : text) :
  single_spaced (a ++ b) = true -> single_spaced a = true.
Proof.
  induction a as [|c a IH]; [done|]. simpl.
  intros [Hc H]%andb_true_iff. rewrite (IH H), andb_true_r.
  destruct (isspace c); [|done].
  apply andb_true_iff in Hc as [-> Hn]. simpl.
  destruct a as [|d a]; [done|]. exact Hn.
Qed.

Lemma single_spaced_strip (u : text) :
  single_spaced u = true -> single_spaced (strip u) = true.
Proof.
  intros H. unfold strip.
  destruct (lstrip_suffix u) as [w1 H1].
  destruct (rstrip_prefix (lstrip u)) as [w2 H2].
  rewrite H1 in H. apply single_spaced_suffix in H.
  rewrite H2 in H. by apply single_spaced_prefix in H.
Qed.

Lemma nonspace_sub_spaces (u : text) : nonspace (sub_spaces u) = nonspace u.
Proof.
  induction u as [|c u IH]; [done|].
  cbn [sub_spaces]. destruct (isspace c) eqn:Hc.
  - simpl. rewrite Hc. simpl. destruct u as [|d u]; [done|].
    destruct (isspace d) eqn:Hd; [exact IH|].
    change (nonspace (0x20 :: sub_spaces (d :: u)))
      with (nonspace (sub_spaces (d :: u))). exact IH.
  - simpl. rewrite Hc. simpl. f_equal. exact IH.
Qed.

Lemma sub_spaces_length (u : text) :
  (length (sub_spaces u) <= length u)%nat.
Proof.
  induction u as [|c u IH]; [done|].
  cbn [sub_spaces]. destruct (isspace c).
  - destruct u as [|d u]; [done|]. destruct (isspace d); simpl in *; lia.
  - simpl in *. lia.
Qed.

Lemma sub_a_boundary_length isalnum (u : text) :
  (length (sub_a_boundary isalnum u) <= length u)%nat.
Proof.
  induction u as [|c u IH]; [done|]. simpl.
  destruct ((c =? 0x61) && boundary_after isalnum c u); simpl; lia.
Qed.

(** X4: the result of schwa deletion has normalized whitespace: it neither
    starts nor ends with whitespace, its only whitespace characters are
    single spaces between two other characters, and it is never longer than
    the input. *)
Theorem schwa_delete_normalized (isalnum : Z -> bool) (t : text) :
  let out := schwa_delete_for_devanagari_to_latin isalnum t in
  single_spaced out = true
  /\ (forall c, head out = Some c -> isspace c = false)
  /\ (forall c, last out = Some c -> isspace c = false)
  /\ (length out <= length t)%nat.
Proof.
  unfold schwa_delete_for_devanagari_to_latin.
  destruct t as [|c t]; [done|]. simpl negb. cbv iota.
  set (u := sub_a_boundary isalnum (c :: t)).
  split; [|split; [|split]].
  - apply single_spaced_strip, single_spaced_sub_spaces.
  - apply strip_edges.
  - apply strip_edges.
  - etrans; [apply strip_length|]. etrans; [apply sub_spaces_length|].
    apply sub_a_boundary_length.
Qed.

(** X5: schwa deletion changes nothing but whitespace and the deleted "a"s:
    the non-whitespace characters of its result are those of the input
    without the "a"s that are followed by a word boundary, in order. *)
Theorem schwa_delete_content (isalnum : Z -> bool) (t : text) :
  nonspace (schwa_delete_for_devanagari_to_latin isalnum t)
  = nonspace (delete_where (trailing_a isalnum t) t).
Proof.
  unfold schwa_delete_for_devanagari_to_latin.
  destruct t as [|c t]; [done|]. simpl negb. cbv iota.
  rewrite nonspace_strip, nonspace_sub_spaces.
  by rewrite sub_a_boundary_delete_where.
Qed.

(** ** Splitting the text into chunks *)

Lemma split_go_nonspace (rest : text) :
  forall cur in_sep,
    (in_sep = true -> cur = []) ->
    nonspace (concat (split_go cur in_sep rest)) = nonspace (rev cur ++ rest).
Proof.
  induction rest as [|c r IH]; intros cur in_sep Hsep; simpl.
  - by rewrite !app_nil_r.
  - destruct (isspace c) eqn:Hc.
    + destruct in_sep.
      * rewrite (Hsep eq_refl). rewrite IH by done. simpl. by rewrite Hc.
      * destruct (match cur with p :: _ => sentence_end p | [] => false end).
        -- simpl. rewrite !nonspace_app, IH by done. simpl. by rewrite Hc.
        -- rewrite IH by done. simpl. by rewrite <- app_assoc.
    + rewrite IH by done. simpl. by rewrite <- app_assoc.
Qed.

Lemma split_go_shape (rest : text) :
  forall cur in_sep,
    exists init final,
      split_go cur in_sep rest = init ++ [final]
      /\ Forall ends_sentence init.
Proof.
  induction rest as [|c r IH]; intros cur in_sep; simpl.
  - exists [], (rev cur). split; [done|constructor].
  - destruct (isspace c) eqn:Hc; [|apply IH].
    destruct in_sep; [apply IH|].
    destruct cur as [|p cur]; [apply IH|].
    destruct (sentence_end p) eqn:Hp; [|apply IH].
    destruct (IH [] true) as (init & final & -> & Hall).
    exists (rev (p :: cur) :: init), final. split; [done|].
    constructor; [|done]. exists p. split; [|done].
    simpl. apply last_snoc.
Qed.

(** X6: splitting never yields an empty list, only drops whitespace (the
    non-whitespace characters of the pieces, in order, are those of the
    text), and every piece but the last ends with a character of the split
    pattern. *)
Theorem split_sentences_pieces (t : text) :
  exists init final,
    split_sentences t = init ++ [final]
    /\ Forall ends_sentence init
    /\ nonspace (concat (split_sentences t)) = nonspace t.
Proof.
  destruct (split_go_shape t [] false) as (init & final & Heq & Hall).
  exists init, final. split; [exact Heq|]. split; [exact Hall|].
  unfold split_sentences. by rewrite split_go_nonspace.
Qed.

Lemma rebucket_fold (pieces : list text) :
  rebucket pieces
  = let '(joined, tmp) := fold_left rebucket_step pieces ([], []) in
    if truthy tmp then joined ++ [tmp] else joined.
Proof.
  unfold rebucket.
  assert (forall st,
            fold_left
              (fun '(joined, tmp) p =>
                 if 300 <? Z.of_nat (length tmp) + Z.of_nat (length p)
                 then (joined ++ [tmp], p)
                 else (joined, strip (tmp ++ [0x20] ++ p)))
              pieces st
            = fold_left rebucket_step pieces st) as ->; [|done].
  induction pieces as [|p pieces IH]; intros [joined tmp]; simpl; [done|].
  apply IH.
Qed.

Lemma rebucket_step_nonspace (pieces : list text) :
  forall joined tmp joined' tmp',
    fold_left rebucket_step pieces (joined, tmp) = (joined', tmp') ->
    nonspace (concat joined' ++ tmp')
    = nonspace (concat joined ++ tmp ++ concat pieces).
Proof.
  induction pieces as [|p pieces IH]; intros joined tmp joined' tmp' H;
    simpl in H.
  - injection H as <- <-. simpl. by rewrite app_nil_r.
  - destruct (300 <? Z.of_nat (length tmp) + Z.of_nat (length p)).
    + rewrite (IH _ _ _ _ H). rewrite concat_app. simpl.
      rewrite app_nil_r. by rewrite <- !app_assoc.
    + rewrite (IH _ _ _ _ H). rewrite !nonspace_app, nonspace_strip.
      rewrite (nonspace_app tmp).
      change (nonspace ([0x20] ++ p)) with (nonspace p).
      change (concat (p :: pieces)) with (p ++ concat pieces).
      rewrite (nonspace_app p). by rewrite <- !app_assoc.
Qed.

Lemma rebucket_nonspace (pieces : list text) :
  nonspace (concat (rebucket pieces)) = nonspace (concat pieces).
Proof.
  rewrite rebucket_fold.
  destruct (fold_left rebucket_step pieces ([], [])) as [joined tmp] eqn:H.
  apply rebucket_step_nonspace in H. simpl in H. rewrite <- H.
  destruct tmp as [|c tmp]; simpl.
  - by rewrite app_nil_r.
  - rewrite concat_app. simpl. by rewrite app_nil_r.
Qed.

Lemma split_sentences_length (t : text) :
  (length (split_sentences t) =? 0)%nat = false.
Proof.
  destruct (split_go_shape t [] false) as (init & final & Heq & _).
  unfold split_sentences. rewrite Heq, length_app. simpl.
  apply Nat.eqb_neq. lia.
Qed.

Lemma make_pieces_nonspace (t : text) :
  nonspace (concat (make_pieces t)) = nonspace t.
Proof.
  unfold make_pieces. rewrite split_sentences_length.
  assert (nonspace (concat (split_sentences t)) = nonspace t) as Hns.
  { unfold split_sentences. by rewrite split_go_nonspace. }
  destruct (12 <? length (split_sentences t))%nat; [|done].
  by rewrite rebucket_nonspace.
Qed.

Lemma chunks_of_nonspace (pieces : list text) :
  nonspace (concat (chunks_of pieces)) = nonspace (concat pieces).
Proof.
  unfold chunks_of. induction pieces as [|p pieces IH]; [done|]. simpl.
  rewrite nonspace_app, <- IH, <- (nonspace_strip p).
  destruct (strip p) as [|c u]; [done|]. simpl concat.
  apply (nonspace_app (c :: u)).
Qed.

Lemma chunks_of_stripped (pieces : list text) :
  Forall (fun c => c <> [] /\ strip c = c) (chunks_of pieces).
Proof.
  unfold chunks_of. induction pieces as [|p pieces IH]; simpl; [constructor|].
  destruct (strip p) as [|c u] eqn:Hp; simpl; [done|].
  constructor; [|done]. split; [done|]. rewrite <- Hp. apply strip_idem.
Qed.

(** X7: the synthesis requests of the chunked fallback cover the text: each
    chunk is a non-empty text without whitespace at its ends, and the
    non-whitespace characters of the chunks, in order, are exactly those of
    the text. *)
Theorem chunks_cover_text (t : text) :
  Forall (fun c => c <> [] /\ strip c = c) (chunks_of (make_pieces t))
  /\ nonspace (concat (chunks_of (make_pieces t))) = nonspace t.
Proof.
  split; [apply chunks_of_stripped|].
  by rewrite chunks_of_nonspace, make_pieces_nonspace.
Qed.

Lemma rebucket_step_bound (pieces all : list text) :
  forall joined tmp joined' tmp',
    (forall p, p ∈ pieces -> p ∈ all) ->
    Forall (fun b : text => b ∈ all \/ (length b <= 301)%nat) joined ->
    (tmp ∈ all \/ (length tmp <= 301)%nat) ->
    fold_left rebucket_step pieces (joined, tmp) = (joined', tmp') ->
    Forall (fun b : text => b ∈ all \/ (length b <= 301)%nat) joined'
    /\ (tmp' ∈ all \/ (length tmp' <= 301)%nat).
Proof.
  induction pieces as [|p pieces IH];
    intros joined tmp joined' tmp' Hsub Hj Ht H; simpl in H.
  - by injection H as <- <-.
  - assert (forall q, q ∈ pieces -> q ∈ all) as Hsub'.
    { intros q Hq. apply Hsub. by right. }
    destruct (Z.ltb_spec 300 (Z.of_nat (length tmp) + Z.of_nat (length p))).
    + apply (IH _ _ _ _ Hsub') in H; [done| |].
      * apply Forall_app. split; [done|]. by constructor.
      * left. apply Hsub. by left.
    + apply (IH _ _ _ _ Hsub') in H; [done|done|].
      right. etrans; [apply strip_length|]. rewrite !length_app. simpl. lia.
Qed.

(** X9: re-bucketing only produces buckets that are pieces of its input or
    have at most 301 characters. *)
Theorem rebucket_bucket_size (pieces : list text) :
  Forall (fun b => b ∈ pieces \/ (length b <= 301)%nat) (rebucket pieces).
Proof.
  rewrite rebucket_fold.
  destruct (fold_left rebucket_step pieces ([], [])) as [joined tmp] eqn:H.
  apply (rebucket_step_bound pieces pieces) in H as [Hj Ht]; try done.
  - destruct tmp; [done|]. apply Forall_app. split; [done|]. by constructor.
  - right. simpl. lia.
Qed.

(** ** The chunked fallback as a whole, and audio generation *)

Section AudioProofs.

Variable gtts : nat -> text -> string -> synthesis.

Lemma synth_all_None (lang : string) (chunks : list text) :
  forall k,
    synth_all gtts lang k chunks = None ->
    exists n c debris,
      chunks !! n = Some c /\ gtts (k + n)%nat c lang = Failed debris.
Proof.
  induction chunks as [|c0 chunks IH]; intros k H; [done|]. simpl in H.
  destruct (gtts k c0 lang) as [a|d0] eqn:H0.
  - destruct (synth_all gtts lang (S k) chunks) as [l|] eqn:Hrest; [done|].
    destruct (IH _ Hrest) as (n & c & d & Hc & Hf).
    exists (S n), c, d. split; [done|].
    by replace (k + S n)%nat with (S k + n)%nat by lia.
  - exists 0%nat, c0, d0. split; [done|]. by rewrite Nat.add_0_r.
Qed.

Lemma save_pieces_ok (pieces : list text) (lang out_path : string)
    (fs : gmap string (list Byte.byte)) (audios : list (list Byte.byte)) :
  synth_all gtts lang 0 (chunks_of pieces) = Some audios ->
  save_pieces gtts pieces lang out_path fs
  = (true,
     remove_all (temp_names out_path 0 pieces)
       (<[out_path := concat audios]>
          (write_all (zip (temp_names out_path 0 pieces) audios) fs))).
Proof.
  intros Hall. unfold save_pieces.
  pose proof (save_loop_ok gtts lang out_path pieces 0 [] fs audios Hall)
    as Hsave.
  simpl in Hsave. rewrite Hsave.
  set (names := temp_names out_path 0 pieces).
  set (fs1 := write_all (zip names audios) fs).
  assert (Forall2 (fun name a => fs1 !! name = Some a) names audios) as Hfiles.
  { apply lookup_write_all; [apply temp_names_NoDup|].
    unfold names. rewrite temp_names_length.
    symmetry. by eapply synth_all_length. }
  assert (out_path ∉ names) as Hout by apply temp_names_not_out.
  rewrite (merge_loop_ok out_path names audios (<[out_path := []]> fs1) []
             Hout (lookup_insert_eq _ _ _)
             (Forall2_insert_other _ _ _ _ _ Hout Hfiles)).
  by rewrite insert_insert_eq.
Qed.

(** The fallback when some request raises: with [m] the first one, the
    files of the [m] chunks before it are removed and the raising call's
    own file keeps what that call left in it. *)
Lemma save_pieces_fail (pieces : list text) (lang out_path : string)
    (fs : gmap string (list Byte.byte)) :
  synth_all gtts lang 0 (chunks_of pieces) = None ->
  exists m c debris name,
    chunks_of pieces !! m = Some c
    /\ gtts m c lang = Failed debris
    /\ temp_names out_path 0 pieces !! m = Some name
    /\ save_pieces gtts pieces lang out_path fs
       = (false,
          remove_all (take m (temp_names out_path 0 pieces))
            (leave_file name debris fs)).
Proof.
  intros Hnone. apply synth_all_None in Hnone as (n & c & d & Hc & Hf).
  destruct (first_failure gtts lang (chunks_of pieces) 0 n c d Hc Hf)
    as (m & c' & d' & _ & Hc' & Hf' & Hprev).
  destruct (save_loop_fail gtts lang out_path pieces 0 [] fs m c' d' Hc' Hf'
              Hprev) as (name & Hname & Hsave).
  simpl in Hsave. exists m, c', d', name.
  split; [done|]. split; [done|]. split; [done|].
  unfold save_pieces. by rewrite Hsave.
Qed.

(** After a failed fallback, a path that is none of the temporary names
    holds what it held before. *)
Lemma failed_folder_other (out_path : string) (pieces : list text)
    (m : nat) (name : string) (debris : option (list Byte.byte))
    (fs : gmap string (list Byte.byte)) (p : string) :
  temp_names out_path 0 pieces !! m = Some name ->
  p ∉ temp_names out_path 0 pieces ->
  remove_all (take m (temp_names out_path 0 pieces))
    (leave_file name debris fs) !! p = fs !! p.
Proof.
  intros Hname Hp. rewrite lookup_remove_all.
  rewrite bool_decide_eq_false_2.
  - rewrite lookup_leave_file. destruct debris; [|done].
    case_decide as Heq; [|done]. subst p.
    exfalso. apply Hp. by eapply list_elem_of_lookup_2.
  - intros Hin. apply Hp.
    rewrite <- (take_drop m (temp_names out_path 0 pieces)).
    apply elem_of_app. by left.
Qed.

(** X8: for a text that is empty or all whitespace the chunked fallback
    makes no synthesis request at all and still answers [True], leaving an
    empty file at the output path; every other file is untouched. *)
Theorem whitespace_text_empty_audio (t : text) (lang out_path : string)
    (fs : gmap string (list Byte.byte))
    (Hsp : forallb isspace t = true) :
  chunks_of (make_pieces t) = []
  /\ _safe_tts_save_chunks gtts t lang out_path fs
     = (true, <[out_path := []]> fs).
Proof.
  assert (chunks_of (make_pieces t) = []) as Hnil.
  { destruct (chunks_of (make_pieces t)) as [|c cs] eqn:Hc; [done|].
    pose proof (chunks_of_stripped (make_pieces t)) as Hst.
    pose proof (chunks_of_nonspace (make_pieces t)) as Hns.
    rewrite make_pieces_nonspace, Hc in Hns.
    apply nonspace_nil_iff in Hsp. rewrite Hsp in Hns.
    rewrite Hc in Hst. apply Forall_cons in Hst as [[Hne Hs] _].
    simpl in Hns. rewrite nonspace_app in Hns.
    apply app_eq_nil in Hns as [Hns _].
    apply nonspace_nil_iff, strip_nil_iff in Hns. congruence. }
  split; [done|].
  unfold _safe_tts_save_chunks.
  rewrite (save_pieces_ok _ lang out_path fs []) by (by rewrite Hnil).
  assert (temp_names out_path 0 (make_pieces t) = []) as ->; [|done].
  apply length_zero_iff_nil. by rewrite temp_names_length, Hnil.
Qed.

Variable gtts_direct : text -> string -> synthesis.

Lemma generate_tts_audio_cases (t : text) (lang hex : string)
    (fs : gmap string (list Byte.byte)) :
  let filename := "tts_" +:+ hex +:+ ".mp3" in
  let res := generate_tts_audio gtts_direct gtts t lang hex fs in
  match gtts_direct t lang,
        synth_all gtts lang 0 (chunks_of (make_pieces t)) with
  | Saved audio, _ => res = (filename, <[audio_path filename := audio]> fs)
  | Failed _, Some audios =>
      res.1 = filename /\ res.2 !! audio_path filename = Some (concat audios)
  | Failed debris, None =>
      res.1 = EmptyString
      /\ res.2 !! audio_path filename
         = leave_file (audio_path filename) debris fs !! audio_path filename
      /\ forall p,
           p ∉ temp_names (audio_path filename) 0 (make_pieces t) ->
           p <> audio_path filename ->
           res.2 !! p = fs !! p
  end.
Proof.
  intros filename res. unfold res, generate_tts_audio. fold filename.
  destruct (gtts_direct t lang) as [audio|debris].
  - rewrite bool_decide_eq_true_2; [done|]. rewrite lookup_insert_eq. by eexists.
  - unfold _safe_tts_save_chunks.
    destruct (synth_all gtts lang 0 (chunks_of (make_pieces t)))
      as [audios|] eqn:Hall.
    + rewrite (save_pieces_ok _ _ _ _ _ Hall).
      set (fs' := remove_all _ _).
      assert (fs' !! audio_path filename = Some (concat audios)) as Hout.
      { unfold fs'. rewrite lookup_remove_all, bool_decide_eq_false_2
          by apply temp_names_not_out.
        apply lookup_insert_eq. }
      rewrite bool_decide_eq_true_2 by (by eexists). simpl. done.
    + destruct (save_pieces_fail (make_pieces t) lang (audio_path filename)
                  (leave_file (audio_path filename) debris fs) Hall)
        as (m & c & d & name & _ & _ & Hname & ->).
      simpl. split; [done|]. split.
      * apply (failed_folder_other _ _ _ _ _ _ _ Hname).
        apply temp_names_not_out.
      * intros p Hp Hne.
        rewrite (failed_folder_other _ _ _ _ _ _ _ Hname Hp).
        rewrite lookup_leave_file. destruct debris; [|done].
        by case_decide.
Qed.

(** X10: [generate_tts_audio] names the file exactly when the direct call or
    every chunk of the fallback is synthesized, and the file then holds the
    direct audio, or else the chunk audios in order.  When both ways fail it
    answers the empty string; the output path then holds what the failed
    direct call left in it (or what it held before, if that call did not
    open it), and every path that is neither the output path nor one of the
    temporary names is as before. *)
Theorem generate_tts_audio_result (t : text) (lang hex : string)
    (fs : gmap string (list Byte.byte)) :
  let filename := "tts_" +:+ hex +:+ ".mp3" in
  let res := generate_tts_audio gtts_direct gtts t lang hex fs in
  match gtts_direct t lang,
        synth_all gtts lang 0 (chunks_of (make_pieces t)) with
  | Saved audio, _ => res = (filename, <[audio_path filename := audio]> fs)
  | Failed _, Some audios =>
      res.1 = filename /\ res.2 !! audio_path filename = Some (concat audios)
  | Failed debris, None =>
      res.1 = EmptyString
      /\ res.2 !! audio_path filename
         = leave_file (audio_path filename) debris fs !! audio_path filename
      /\ forall p,
           p ∉ temp_names (audio_path filename) 0 (make_pieces t) ->
           p <> audio_path filename ->
           res.2 !! p = fs !! p
  end.
Proof. apply generate_tts_audio_cases. Qed.

End AudioProofs.

Lemma whitespace_text_empty_audio_witness :
  _safe_tts_save_chunks (fun _ _ _ => Failed (Some [])) [0x20; 0x0A] "en"
    "audio/x.mp3" ∅
  = (true, {[ "audio/x.mp3" := [] ]}).
Proof.
  apply (whitespace_text_empty_audio (fun _ _ _ => Failed (Some []))
           [0x20; 0x0A] "en" "audio/x.mp3" ∅).
  reflexivity.
Defined.

(** ** Range headers written in decimal *)

Lemma string_app_assoc (a b c : string) : (a +:+ b) +:+ c = a +:+ b +:+ c.
Proof.
  induction a as [|x a IH]; [done|].
  rewrite !string_app_cons. by rewrite IH.
Qed.

Lemma string_app_nil_l (s : string) : EmptyString +:+ s = s.
Proof. reflexivity. Qed.

Lemma int_digits_app (s1 s2 : string) (acc : Z) :
  int_digits acc (s1 +:+ s2) = int_digits (int_digits acc s1) s2.
Proof.
  revert acc. induction s1 as [|c s1 IH]; intros acc; [done|].
  rewrite string_app_cons. simpl. apply IH.
Qed.

Lemma all_digits_app (s1 s2 : string) :
  all_digits (s1 +:+ s2) = all_digits s1 && all_digits s2.
Proof.
  induction s1 as [|c s1 IH]; [done|].
  rewrite string_app_cons. simpl. by rewrite IH, andb_assoc.
Qed.

Lemma pretty_N_char_digit (d : N) :
  (d < 10)%N ->
  is_digit (pretty_N_char d) = true
  /\ Z.of_nat (nat_of_ascii (pretty_N_char d)) - 48 = Z.of_N d.
Proof.
  intros Hd.
  assert (d = 0 \/ d = 1 \/ d = 2 \/ d = 3 \/ d = 4 \/ d = 5 \/ d = 6
          \/ d = 7 \/ d = 8 \/ d = 9)%N as Hcases by lia.
  repeat (destruct Hcases as [->|Hcases]; [by vm_compute|]).
  subst d. by vm_compute.
Qed.

Lemma pretty_N_go_app (x : N) (s : string) :
  pretty_N_go x s = pretty_N_go x EmptyString +:+ s.
Proof.
  revert s. induction (N.lt_wf_0 x) as [x _ IH]. intros s.
  destruct (decide (x = 0%N)) as [->|Hx].
  - by rewrite !pretty_N_go_0.
  - rewrite (pretty_N_go_step x s), (pretty_N_go_step x EmptyString) by lia.
    assert (x `div` 10 < x)%N as Hlt by (apply N.div_lt; lia).
    rewrite (IH _ Hlt (String (pretty_N_char (x `mod` 10)) s)).
    rewrite (IH _ Hlt (String (pretty_N_char (x `mod` 10)) EmptyString)).
    by rewrite string_app_assoc.
Qed.

Lemma pretty_N_go_digits (x : N) :
  all_digits (pretty_N_go x EmptyString) = true
  /\ int_digits 0 (pretty_N_go x EmptyString) = Z.of_N x.
Proof.
  induction (N.lt_wf_0 x) as [x _ IH].
  destruct (decide (x = 0%N)) as [->|Hx]; [by rewrite pretty_N_go_0|].
  rewrite (pretty_N_go_step x) by lia. rewrite pretty_N_go_app.
  destruct (IH (x `div` 10)%N) as [Hd Hi]; [apply N.div_lt; lia|].
  destruct (pretty_N_char_digit (x `mod` 10)%N) as [Hc Hv];
    [apply N.mod_lt; lia|].
  split.
  - rewrite all_digits_app, Hd. simpl. by rewrite Hc.
  - rewrite int_digits_app, Hi. simpl. rewrite Hv.
    pose proof (N.div_mod x 10). lia.
Qed.

(** [int(str(z)) == z] for a non-negative integer, whose decimal form is a
    non-empty string of digits. *)
Lemma pretty_Z_digits (z : Z) :
  0 <= z ->
  all_digits (pretty z) = true /\ int (pretty z) = z
  /\ pretty z <> EmptyString.
Proof.
  intros Hz. destruct z as [|p|p]; [done| |lia].
  change (pretty (Z.pos p)) with (pretty_N_go (N.pos p) EmptyString).
  destruct (pretty_N_go_digits (N.pos p)) as [Hd Hi].
  split; [done|]. split; [exact Hi|].
  rewrite (pretty_N_go_step (N.pos p)) by lia. rewrite pretty_N_go_app.
  intros H. apply (f_equal String.length) in H.
  rewrite string_app_length in H. simpl in H. lia.
Qed.

Lemma span_digits_app (d rest : string) :
  all_digits d = true ->
  match rest with
  | EmptyString => True
  | String c _ => is_digit c = false
  end ->
  span_digits (d +:+ rest) = (d, rest).
Proof.
  intros Hd Hrest. induction d as [|c d IH].
  - rewrite string_app_nil_l. destruct rest as [|c r]; [done|].
    simpl. by rewrite Hrest.
  - simpl in Hd. apply andb_true_iff in Hd as [Hc Hd].
    rewrite string_app_cons. simpl. rewrite Hc. by rewrite IH.
Qed.

Lemma span_digits_all (d : string) :
  all_digits d = true -> span_digits d = (d, EmptyString).
Proof.
  intros Hd. induction d as [|c d IH]; [done|].
  simpl in *. apply andb_true_iff in Hd as [Hc Hd].
  rewrite Hc. by rewrite IH.
Qed.

Lemma strip_prefix_app (p s : string) : strip_prefix p (p +:+ s) = Some s.
Proof.
  induction p as [|c p IH]; [done|].
  rewrite string_app_cons. simpl. by rewrite Ascii.eqb_refl.
Qed.

Lemma re_search_range_digits_header (d1 d2 : string) :
  all_digits d1 = true -> d1 <> EmptyString -> all_digits d2 = true ->
  re_search_range ("bytes=" +:+ d1 +:+ "-" +:+ d2) = Some (d1, d2).
Proof.
  intros H1 Hne H2.
  assert (match_range_at ("bytes=" +:+ d1 +:+ "-" +:+ d2) = Some (d1, d2))
    as Hm.
  { unfold match_range_at. rewrite strip_prefix_app.
    rewrite span_digits_app by done.
    destruct d1 as [|c d1]; [done|].
    change ("-" +:+ d2) with (String "-" d2). cbv iota beta.
    by rewrite span_digits_all. }
  destruct ("bytes=" +:+ d1 +:+ "-" +:+ d2) eqn:Hs.
  - discriminate Hm.
  - cbn [re_search_range]. by rewrite Hm.
Qed.

(** X11: a header "bytes=a-b" written with decimal numbers of at most 4300
    digits (beyond which [int] raises) is parsed back to the start [a] and
    the end [b], and "bytes=a-" to the start [a] with no end. *)
Theorem range_header_roundtrip (a b : Z) (Ha : 0 <= a) (Hb : 0 <= b)
    (Hla : (String.length (pretty a) <= 4300)%nat)
    (Hlb : (String.length (pretty b) <= 4300)%nat) :
  (exists g1 g2,
     re_search_range ("bytes=" +:+ pretty a +:+ "-" +:+ pretty b)
     = Some (g1, g2)
     /\ int g1 = a /\ str_truthy g2 = true /\ int g2 = b)
  /\ (exists g1,
        re_search_range ("bytes=" +:+ pretty a +:+ "-")
        = Some (g1, EmptyString)
        /\ int g1 = a).
Proof.
  destruct (pretty_Z_digits a Ha) as (Hda & Hia & Hna).
  destruct (pretty_Z_digits b Hb) as (Hdb & Hib & Hnb).
  split.
  - exists (pretty a), (pretty b).
    rewrite re_search_range_digits_header by done.
    split; [done|]. split; [done|]. split; [|done].
    by destruct (pretty b).
  - exists (pretty a).
    rewrite (re_search_range_digits_header (pretty a) EmptyString) by done.
    done.
Qed.

Lemma range_header_roundtrip_witness :
  re_search_range "bytes=120-4095" = Some ("120", "4095")
  /\ int "120" = 120 /\ int "4095" = 4095.
Proof.
  assert (String.length (pretty 120) <= 4300)%nat as Hla
    by (vm_compute; lia).
  assert (String.length (pretty 4095) <= 4300)%nat as Hlb
    by (vm_compute; lia).
  destruct (range_header_roundtrip 120 4095 ltac:(lia) ltac:(lia) Hla Hlb)
    as [(g1 & g2 & Hparse & H1 & _ & H2) _].
  vm_compute in Hparse. injection Hparse as <- <-.
  split; [reflexivity|]. split; [exact H1|exact H2].
Defined.

(** X12: for a stored file and [0 <= a <= b < size], the request
    "bytes=a-b" is answered 206 with exactly the bytes at offsets [a] to
    [b], the headers naming that range and its length; "bytes=a-" with
    [a < size] is answered with the bytes from [a] to the end. *)
Theorem range_request_served (fs : gmap string (list Byte.byte))
    (path : string) (content : list Byte.byte) (a b : Z)
    (Hfile : fs !! path = Some content)
    (Hrange : 0 <= a <= b /\ b < Z.of_nat (length content)) :
  let size := Z.of_nat (length content) in
  let slice := take (Z.to_nat (b - a + 1)) (drop (Z.to_nat a) content) in
  send_file_partial fs path
    (Some ("bytes=" +:+ pretty a +:+ "-" +:+ pretty b))
  = Ok (Response 206 slice (range_headers a b size))
  /\ Z.of_nat (length slice) = b - a + 1
  /\ send_file_partial fs path (Some ("bytes=" +:+ pretty a +:+ "-"))
     = Ok (Response 206 (drop (Z.to_nat a) content)
             (range_headers a (size - 1) size))
  /\ Z.of_nat (length (drop (Z.to_nat a) content)) = size - a.
Proof.
  intros size slice.
  destruct (pretty_Z_digits a) as (Hda & Hia & Hna); [lia|].
  destruct (pretty_Z_digits b) as (Hdb & Hib & Hnb); [lia|].
  pose proof (re_search_range_digits_header (pretty a) (pretty b)
                Hda Hna Hdb) as Hp1.
  pose proof (re_search_range_digits_header (pretty a) EmptyString
                Hda Hna eq_refl) as Hp2.
  destruct (send_file_partial_parsed fs path _ _ _ content Hfile Hp1)
    as (_ & _ & Hin & _).
  destruct (send_file_partial_parsed fs path _ _ _ content Hfile Hp2)
    as (_ & _ & Hopen & _).
  assert (str_truthy (pretty b) = true) as Htb by (by destruct (pretty b)).
  rewrite Htb, Hia, Hib in Hin. simpl in Hopen. rewrite Hia in Hopen.
  fold size in Hin, Hopen.
  destruct Hin as [Hr1 Hl1]; [lia|lia|].
  destruct Hopen as [Hr2 Hl2]; [lia|lia|].
  split; [exact Hr1|]. split; [exact Hl1|].
  replace (size - 1 - a + 1) with (size - a) in * by lia.
  rewrite take_ge in Hr2, Hl2 by (rewrite length_drop; lia).
  split; [exact Hr2|]. rewrite Hl2. lia.
Qed.

Lemma range_request_served_witness :
  send_file_partial
    {[ "audio/a.mp3" := [Byte.x0a; Byte.x0b; Byte.x0c; Byte.x0d] ]}
    "audio/a.mp3" (Some "bytes=1-2")
  = Ok (Response 206 [Byte.x0b; Byte.x0c] (range_headers 1 2 4)).
Proof.
  apply (range_request_served
           {[ "audio/a.mp3" := [Byte.x0a; Byte.x0b; Byte.x0c; Byte.x0d] ]}
           "audio/a.mp3" [Byte.x0a; Byte.x0b; Byte.x0c; Byte.x0d] 1 2).
  - reflexivity.
  - simpl. lia.
Defined.

(** ** What the range server can answer *)

(** X13: a 206 answer never carries bytes that are not in the file: its
    body is a contiguous part of the stored content; a 416 answer has no
    body and none of the range headers. *)
Theorem range_body_is_slice (fs : gmap string (list Byte.byte))
    (path : string) (h : option string) (content : list Byte.byte)
    (status : Z) (data : list Byte.byte) (headers : list (string * string))
    (Hfile : fs !! path = Some content)
    (Hresp : send_file_partial fs path h = Ok (Response status data headers)) :
  (status = 416 /\ data = [] /\ headers = [])
  \/ (status = 206 /\ exists pre post, content = pre ++ data ++ post).
Proof.
  unfold send_file_partial in Hresp. rewrite Hfile in Hresp.
  destruct h as [hs|]; [|done].
  destruct (str_truthy hs); [|done]. simpl in Hresp.
  destruct (re_search_range hs) as [[g1 g2]|]; [|done].
  destruct (Z.of_nat (length content) <=? int g1).
  { left. by injection Hresp as <- <- <-. }
  right. unfold file_read in Hresp.
  set (start := Z.to_nat (int g1)) in *.
  destruct (_ <? -1); [done|].
  destruct (_ =? -1).
  - injection Hresp as <- <- _. split; [done|].
    exists (take start content), []. by rewrite app_nil_r, take_drop.
  - injection Hresp as <- <- _. split; [done|].
    eexists (take start content), _.
    by rewrite take_drop, take_drop.
Qed.

Lemma range_body_is_slice_witness :
  exists pre post,
    [Byte.x0a; Byte.x0b; Byte.x0c] = pre ++ [Byte.x0b; Byte.x0c] ++ post.
Proof.
  assert (({[ "audio/a.mp3" := [Byte.x0a; Byte.x0b; Byte.x0c] ]}
             : gmap string (list Byte.byte)) !! "audio/a.mp3"
          = Some [Byte.x0a; Byte.x0b; Byte.x0c]) as Hfile
    by (vm_compute; reflexivity).
  assert (send_file_partial
            {[ "audio/a.mp3" := [Byte.x0a; Byte.x0b; Byte.x0c] ]}
            "audio/a.mp3" (Some "bytes=1-7")
          = Ok (Response 206 [Byte.x0b; Byte.x0c] (range_headers 1 7 3)))
    as Hresp by (vm_compute; reflexivity).
  destruct (range_body_is_slice _ _ _ _ _ _ _ Hfile Hresp)
    as [[Hst _]|[_ Hslice]]; [discriminate Hst|exact Hslice].
Defined.

(** X14: for a request whose sanitized name is not empty, [serve_audio]
    answers 404 when the file is not in the folder; 500 when the file is
    there and the header carries an end that lies more than two below a
    start inside the file (the read length is then below -1, and [read]
    raises); and, for a header "bytes=a-b" with [0 <= a <= b < size], the
    206 answer with the bytes at offsets [a] to [b]. *)
Theorem serve_audio_answers (secure_filename : string -> string)
    (fs : gmap string (list Byte.byte)) (filename : string)
    (h : option string)
    (Hname : secure_filename filename <> EmptyString) :
  let path := audio_path (secure_filename filename) in
  let answer := serve_audio secure_filename fs filename h in
  (fs !! path = None -> answer = JsonError 404)
  /\ (forall content hs g1 g2,
        fs !! path = Some content ->
        h = Some hs -> re_search_range hs = Some (g1, g2) ->
        str_truthy g2 = true ->
        int g1 < Z.of_nat (length content) ->
        int g2 + 2 < int g1 ->
        answer = JsonError 500)
  /\ (forall content a b,
        fs !! path = Some content ->
        0 <= a <= b /\ b < Z.of_nat (length content) ->
        h = Some ("bytes=" +:+ pretty a +:+ "-" +:+ pretty b) ->
        answer
        = Served (Response 206
                    (take (Z.to_nat (b - a + 1))
                          (drop (Z.to_nat a) content))
                    (range_headers a b (Z.of_nat (length content))))).
Proof.
  intros path answer. unfold answer, serve_audio. fold path.
  split; [|split].
  - by intros ->.
  - intros content hs g1 g2 Hfile -> Hparse Hg2 Hlt Hend.
    rewrite Hfile. unfold send_file_partial. rewrite Hfile.
    assert (str_truthy hs = true) as ->.
    { destruct hs; [|done]. discriminate Hparse. }
    simpl. rewrite Hparse, Hg2.
    rewrite (proj2 (Z.leb_gt _ _) Hlt). unfold file_read.
    by rewrite (proj2 (Z.ltb_lt _ _)) by lia.
  - intros content a b Hfile Hrange ->. rewrite Hfile.
    destruct (pretty_Z_digits a) as (Hda & Hia & Hna); [lia|].
    destruct (pretty_Z_digits b) as (Hdb & Hib & Hnb); [lia|].
    pose proof (re_search_range_digits_header (pretty a) (pretty b)
                  Hda Hna Hdb) as Hp.
    destruct (send_file_partial_parsed fs path _ _ _ content Hfile Hp)
      as (_ & _ & Hin & _).
    assert (str_truthy (pretty b) = true) as Htb by (by destruct (pretty b)).
    rewrite Htb, Hia, Hib in Hin.
    destruct Hin as [Hr _]; [lia|lia|]. by rewrite Hr.
Qed.

Lemma serve_audio_answers_witness :
  serve_audio (fun s => s)
    {[ "audio/a.mp3" := [Byte.x01; Byte.x02; Byte.x03; Byte.x04] ]}
    "a.mp3" (Some "bytes=3-0") = JsonError 500.
Proof.
  assert (({[ "audio/a.mp3" := [Byte.x01; Byte.x02; Byte.x03; Byte.x04] ]}
             : gmap string (list Byte.byte)) !! audio_path "a.mp3"
          = Some [Byte.x01; Byte.x02; Byte.x03; Byte.x04]) as Hfile
    by (vm_compute; reflexivity).
  destruct (serve_audio_answers (fun s => s)
              {[ "audio/a.mp3" := [Byte.x01; Byte.x02; Byte.x03; Byte.x04] ]}
              "a.mp3" (Some "bytes=3-0")) as (_ & Hbad & _);
    [discriminate|].
  apply (Hbad [Byte.x01; Byte.x02; Byte.x03; Byte.x04] "bytes=3-0" "3" "0");
    first [exact Hfile | reflexivity].
Defined.

(** ** The host of the audio URL *)



(** ** Text recognition *)

(** X16: [perform_ocr_from_bytes] raises only when the image cannot be
    opened, neither from memory nor from the temporary file; failures of the
    recognition itself give a text (empty when the retry with "eng" fails
    too).  The text it returns has no whitespace at its ends, and the
    temporary file never stays behind. *)
Theorem perform_ocr_result (image : Type)
    (open_bytes : list Byte.byte -> opened image)
    (open_file : list Byte.byte -> option image)
    (image_to_string : image -> string -> option text)
    (file_bytes : list Byte.byte) (ocr_lang : option string)
    (tmp_name : string) (fs : gmap string (list Byte.byte))
    (Hfresh : fs !! tmp_name = None) :
  let res := perform_ocr_from_bytes image open_bytes open_file
               image_to_string file_bytes ocr_lang tmp_name fs in
  res.2 = fs
  /\ (res.1 = Raise <->
      open_bytes file_bytes = OpenError
      \/ (open_bytes file_bytes = Unidentified
          /\ open_file file_bytes = None))
  /\ (forall t, res.1 = Ok t -> strip t = t)
  /\ (forall img lang,
        image_to_string img lang = None ->
        image_to_string img "eng" = None ->
        ocr_text image image_to_string img lang = []).
Proof.
  intros res. unfold res, perform_ocr_from_bytes.
  assert (delete tmp_name (<[tmp_name := file_bytes]>
                             (<[tmp_name := []]> fs)) = fs) as Hfs.
  { rewrite delete_insert_eq, delete_insert_eq. by apply delete_id. }
  split; [|split; [|split]].
  - destruct (open_bytes file_bytes); [done| |done].
    rewrite lookup_insert_eq. simpl. by destruct (open_file file_bytes).
  - destruct (open_bytes file_bytes) as [img| |] eqn:Ho.
    + simpl. split; [done|]. intros [?|[? _]]; done.
    + rewrite lookup_insert_eq. simpl.
      destruct (open_file file_bytes); simpl.
      * split; [done|]. intros [?|[_ ?]]; done.
      * split; [by right|done].
    + simpl. split; [by left|done].
  - intros t.
    destruct (open_bytes file_bytes) as [img| |].
    + simpl. intros [= <-]. apply strip_idem.
    + rewrite lookup_insert_eq. simpl.
      destruct (open_file file_bytes); simpl; [|done].
      intros [= <-]. apply strip_idem.
    + done.
  - intros img lang H1 H2. unfold ocr_text. by rewrite H1, H2.
Qed.

Lemma perform_ocr_result_witness :
  perform_ocr_from_bytes unit (fun _ => Unidentified) (fun _ => Some tt)
    (fun _ lang => if String.eqb lang "eng" then Some [0x20; 0x41; 0x0A]
                   else None)
    [Byte.x01] None "/tmp/t.jpg" ∅
  = (Ok [0x41], ∅).
Proof.
  assert ((∅ : gmap string (list Byte.byte)) !! "/tmp/t.jpg" = None)
    as Hfresh by (vm_compute; reflexivity).
  destruct (perform_ocr_result unit (fun _ => Unidentified)
              (fun _ => Some tt)
              (fun _ lang => if String.eqb lang "eng"
                             then Some [0x20; 0x41; 0x0A] else None)
              [Byte.x01] None "/tmp/t.jpg" ∅ Hfresh) as (Hfs & _).
  apply injective_projections; [reflexivity|exact Hfs].
Defined.

(** ** The handler on recognized text *)

(** X17: on a recognized text (not empty, no whitespace at its ends) that
    is not detected as "latin", the handler always answers without error
    and always requests synthesis of the recognized text itself, in the
    language of its answer, whatever the engine does; the detected script
    of the answer is "unknown" exactly when no character of the text lies
    in a range of the table. *)
Theorem handler_speaks_recognized_text (isalnum : Z -> bool)
    (sanscript : text -> string -> string -> option text)
    (extracted : text) (target : string) (log : list engine_call)
    (Hne : extracted <> []) (Hstripped : strip extracted = extracted)
    (Hnot_latin : detect_script extracted <> "latin") :
  exists r log',
    transliterate_image isalnum sanscript extracted target log = (Ok r, log')
    /\ original_text r = extracted
    /\ error r = EmptyString
    /\ tts_request r = Some (extracted, langCode r)
    /\ (detected_script r = "unknown" <->
        forall sr, sr ∈ SCRIPT_RANGES -> hits sr.2 extracted = 0).
Proof.
  unfold transliterate_image.
  assert (truthy extracted = true) as Htr by (by destruct extracted).
  rewrite Htr. change (negb true) with false. cbv iota.
  destruct (convert_cases sanscript extracted (detect_script extracted)
              target log) as (out & log' & Hrun & _).
  unfold bind. rewrite Hrun. unfold ret.
  eexists _, log'. split; [done|]. simpl.
  split; [done|]. split; [done|]. split.
  - destruct (String.eqb_spec (detect_script extracted) "latin"); [done|].
    simpl. by rewrite Hstripped, Htr.
  - destruct (detect_script_cases extracted)
      as [[Hunk [Hsp|Hzero]]|(rs & Hin & Hpos & _)].
    + apply strip_nil_iff in Hsp. congruence.
    + done.
    + split.
      * intros Hunk. rewrite Hunk in Hin. exfalso.
        unfold SCRIPT_RANGES in Hin.
        repeat (apply elem_of_cons in Hin as [Hin|Hin]; [discriminate|]).
        by apply elem_of_nil in Hin.
      * intros Hzero. specialize (Hzero _ Hin). simpl in Hzero. lia.
Qed.

Lemma handler_speaks_recognized_text_witness :
  exists r log',
    transliterate_image ascii_isalnum (fun _ _ _ => None)
      [0x0BA4; 0x20; 0x0BAE] "latin" [] = (Ok r, log')
    /\ tts_request r = Some ([0x0BA4; 0x20; 0x0BAE], "ta").
Proof.
  destruct (handler_speaks_recognized_text ascii_isalnum (fun _ _ _ => None)
              [0x0BA4; 0x20; 0x0BAE] "latin" [])
    as (r & log' & Hrun & _ & _ & Hreq & _).
  - discriminate.
  - reflexivity.
  - vm_compute. discriminate.
  - exists r, log'. split; [exact Hrun|]. rewrite Hreq.
    injection Hrun as <- _. reflexivity.
Defined.

(** " rama  sita " is normalized to "ram sit". *)
Lemma schwa_delete_normalized_witness :
  isspace 0x72 = false /\ isspace 0x74 = false.
Proof.
  destruct (schwa_delete_normalized ascii_isalnum
              [0x20; 0x72; 0x61; 0x6D; 0x61; 0x20; 0x20; 0x73; 0x69; 0x74;
               0x61; 0x20])
    as (_ & Hhead & Hlast & _).
  split; [apply Hhead|apply Hlast]; reflexivity.
Defined.

(** ** From generation to retrieval *)

(** X18: a file name returned by [generate_tts_audio] can be fetched: if the
    name is not empty and [secure_filename] leaves it as it is, then
    [serve_audio] on the resulting folder does not answer 404 but serves the
    file stored under that name. *)
Theorem generated_audio_is_served
    (gtts_direct : text -> string -> synthesis)
    (gtts : nat -> text -> string -> synthesis)
    (secure_filename : string -> string)
    (t : text) (lang hex : string) (fs : gmap string (list Byte.byte)) :
  let res := generate_tts_audio gtts_direct gtts t lang hex fs in
  res.1 <> EmptyString ->
  secure_filename res.1 = res.1 ->
  is_Some (res.2 !! audio_path res.1)
  /\ serve_audio secure_filename res.2 res.1 None
     = Served (SendFile (audio_path res.1)).
Proof.
  intros res Hname Hsec.
  pose proof (generate_tts_audio_cases gtts gtts_direct t lang hex fs) as H.
  cbv zeta in H. fold res in H.
  assert (is_Some (res.2 !! audio_path res.1)) as [content Hfile].
  { destruct (gtts_direct t lang) as [audio|debris].
    - rewrite H. simpl. rewrite lookup_insert_eq. by eexists.
    - destruct (synth_all gtts lang 0 (chunks_of (make_pieces t))).
      + destruct H as [-> ->]. by eexists.
      + by destruct H as [? _]. }
  split; [by eexists|].
  unfold serve_audio, send_file_partial. by rewrite Hsec, Hfile.
Qed.

Lemma generated_audio_is_served_witness :
  let res := generate_tts_audio (fun _ _ => Failed (Some [])) two_calls_gtts
               [0x61; 0x2E; 0x20; 0x62] "en" "0f" ∅ in
  is_Some (res.2 !! audio_path res.1)
  /\ serve_audio (fun s => s) res.2 res.1 None
     = Served (SendFile (audio_path res.1)).
Proof.
  intros res.
  apply (generated_audio_is_served (fun _ _ => Failed (Some []))
           two_calls_gtts (fun s => s) [0x61; 0x2E; 0x20; 0x62] "en" "0f" ∅).
  - vm_compute. discriminate.
  - reflexivity.
Defined.
